(** * jenv: environment placeholders resolved into typed configuration records

    A shallow embedding of [env.go] of the package [jenv]: the placeholder
    resolver [getEnv], the scalar converters [getEnvValueInt] ...
    [getEnvValueTime], the reflective field walker [setFieldValue] /
    [populateFields], and the default environment lookup [getenv].

    Go strings are byte strings and are modelled by [string] (one [ascii]
    per byte).  The functions of other packages that the file calls
    ([strconv], [time], [date], [json], the float and time formatters of
    [fmt]) are the fields of the class [Runtime]; the global variable
    [Getenv] is a field too, since the embedding application may replace
    it. *)

From Stdlib Require Import ZArith Ascii DecimalString.
From stdpp Require Import gmap strings list fin_maps.

Local Open Scope Z_scope.

(** ** Byte strings: the functions of package [strings] used by the source *)

Module strings.

Definition code (c : ascii) : N := N_of_ascii c.

(** [s[lo:hi]] for [lo <= hi <= len(s)]. *)
Definition slice (s : string) (lo hi : nat) : string :=
  String.substring lo (hi - lo) s.

(** [strings.HasPrefix(s, prefix)] *)
Definition HasPrefix (s prefix : string) : bool := String.prefix prefix s.

(** [strings.HasSuffix(s, suffix)] *)
Definition HasSuffix (s suffix : string) : bool :=
  String.prefix (String.rev suffix) (String.rev s).

(** The one-byte white space runes: tab, LF, VT, FF, CR and space. *)
Definition space1 (a : ascii) : bool :=
  let n := code a in ((9 <=? n) && (n <=? 13) || (n =? 32))%N.

(** The two-byte UTF-8 encodings of white space: U+0085 and U+00A0. *)
Definition space2 (a b : ascii) : bool :=
  ((code a =? 194) && ((code b =? 133) || (code b =? 160)))%N.

(** The three-byte encodings: U+1680, U+2000 to U+200A, U+2028, U+2029,
    U+202F, U+205F and U+3000. *)
Definition space3 (a b c : ascii) : bool :=
  let '(x, y, z) := (code a, code b, code c) in
  ((x =? 225) && (y =? 154) && (z =? 128)
   || (x =? 226) && (y =? 128)
      && ((128 <=? z) && (z <=? 138) || (z =? 168) || (z =? 169) || (z =? 175))
   || (x =? 226) && (y =? 129) && (z =? 159)
   || (x =? 227) && (y =? 128) && (z =? 128))%N.

(** Drops the white space runes at the front of [s]; [sp2] and [sp3]
    recognise the multi-byte ones in the order the bytes are met. *)
Fixpoint dropSpaces (sp2 : ascii → ascii → bool)
    (sp3 : ascii → ascii → ascii → bool) (s : string) : string :=
  match s with
  | EmptyString => s
  | String a s1 =>
      if space1 a then dropSpaces sp2 sp3 s1 else
      match s1 with
      | EmptyString => s
      | String b s2 =>
          if sp2 a b then dropSpaces sp2 sp3 s2 else
          match s2 with
          | EmptyString => s
          | String c s3 => if sp3 a b c then dropSpaces sp2 sp3 s3 else s
          end
      end
  end.

Definition TrimLeftSpace (s : string) : string := dropSpaces space2 space3 s.

Definition TrimRightSpace (s : string) : string :=
  String.rev (dropSpaces (λ a b, space2 b a) (λ a b c, space3 c b a)
                         (String.rev s)).

(** [strings.TrimSpace(s)]: all leading and trailing Unicode white space
    removed. *)
Definition TrimSpace (s : string) : string :=
  TrimRightSpace (TrimLeftSpace s).

(** [strings.Cut(s, sep)] for a one-byte separator: the text before and
    after its first occurrence. *)
Fixpoint Cut (sep : ascii) (s : string) : option (string * string) :=
  match s with
  | EmptyString => None
  | String a s' =>
      if Ascii.eqb a sep then Some (EmptyString, s')
      else match Cut sep s' with
           | Some (before, after) => Some (String a before, after)
           | None => None
           end
  end.

(** [strings.SplitN(s, sep, 2)] for a one-byte separator. *)
Definition SplitN2 (s : string) (sep : ascii) : list string :=
  match Cut sep s with
  | Some (before, after) => [before; after]
  | None => [s]
  end.

(** [strings.Split(s, sep)[0]] for a one-byte separator. *)
Definition SplitHead (s : string) (sep : ascii) : string :=
  match Cut sep s with
  | Some (before, _) => before
  | None => s
  end.

(** [strings.ReplaceAll(s, old, "")] for a one-byte [old]. *)
Fixpoint RemoveAll (s : string) (old : ascii) : string :=
  match s with
  | EmptyString => EmptyString
  | String a s' =>
      if Ascii.eqb a old then RemoveAll s' old else String a (RemoveAll s' old)
  end.

(** [strings.Join(l, sep)] *)
Fixpoint Join (l : list string) (sep : string) : string :=
  match l with
  | [] => ""
  | [x] => x
  | x :: l' => x +:+ sep +:+ Join l' sep
  end.

End strings.

(** A byte of a string. *)
Definition hasByte (c : ascii) (s : string) : Prop :=
  In c (String.list_ascii_of_string s).

(** ** The decoded document: Go's [any] as produced by the decoders *)

(** [F] is [float64] and [T] is [time.Time].  The JSON decoder produces
    [nil], [bool], [float64], [string], [[]any] and [map[string]any]; the
    YAML decoder also produces [int] and [time.Time].  A map is kept as the
    list of its entries, with one entry per key. *)
#[warnings="-register-all"]
Inductive Raw (F T : Type) : Type :=
  | RNull
  | RBool (b : bool)
  | RInt (z : Z)
  | RFloat (f : F)
  | RString (s : string)
  | RTime (t : T)
  | RSeq (l : list (Raw F T))
  | RMap (m : list (string * Raw F T)).

Arguments RNull {F T}.
Arguments RBool {F T} b.
Arguments RInt {F T} z.
Arguments RFloat {F T} f.
Arguments RString {F T} s.
Arguments RTime {F T} t.
Arguments RSeq {F T} l.
Arguments RMap {F T} m.

(** [rawMap[key]] *)
Fixpoint lookupRaw {F T} (m : list (string * Raw F T)) (key : string)
    : option (Raw F T) :=
  match m with
  | [] => None
  | (k, v) :: m' => if String.eqb k key then Some v else lookupRaw m' key
  end.

(** A decoded document has one entry per key in each of its maps. *)
Fixpoint uniqueKeys {F T} (r : Raw F T) : bool :=
  match r with
  | RSeq l => forallb uniqueKeys l
  | RMap m =>
      bool_decide (NoDup m.*1) && forallb (λ kv, uniqueKeys kv.2) m
  | _ => true
  end.

(** Go's [error], by its message. *)
Definition error : Type := string.

(** A Go result pair [(value, err)]. *)
Inductive result (A : Type) : Type :=
  | Ok (a : A)
  | Err (e : error).

Arguments Ok {A} a.
Arguments Err {A} e.

(** ** The declared shape of the target record *)

(** A field of a struct type: [reflect.StructField] with its name, its
    tag as the list of its [key:"value"] pairs, and its type. *)
Record StructField (T : Type) : Type := mkField {
  Name : string;
  Tag : list (string * string);
  Type_ : T
}.

Arguments mkField {T} Name Tag Type_.
Arguments Name {T} s.
Arguments Tag {T} s.
Arguments Type_ {T} s.

(** [tag.Get(key)]: the value of the first pair with that key, or [""]. *)
Fixpoint Tag_Get (tag : list (string * string)) (key : string) : string :=
  match tag with
  | [] => ""
  | (k, v) :: tag' => if String.eqb k key then v else Tag_Get tag' key
  end.

Inductive IntKind : Type := KInt | KInt8 | KInt16 | KInt32.

Inductive FloatKind : Type := KFloat32 | KFloat64.

(** The field types, by the cases [setFieldValue] tells apart.  [TInt64]
    is every type of kind [Int64] but [time.Duration]; [TBytes] is [[]byte]
    and [json.RawMessage], [TSlice] every other slice type; [TTime] is
    [time.Time], [TStruct] every other struct type; [TMap] is a map with
    string keys; [TInterface] is [any]; [TOther] is a type of a kind without
    a case ([uint], [chan], an array, ...) with the name of the kind and the
    [%v] text of its zero value.  A type is a finite tree (a struct type
    that contains itself is left out), and fields are taken to be
    exported. *)
#[warnings="-register-all"]
Inductive GoType : Type :=
  | TInt (k : IntKind)
  | TInt64
  | TDuration
  | TFloat (k : FloatKind)
  | TString
  | TBool
  | TBytes
  | TSlice (elem : GoType)
  | TMap (elem : GoType)
  | TTime
  | TStruct (fields : list (StructField GoType))
  | TInterface
  | TPtr (elem : GoType)
  | TOther (kind zeroText : string).

(** The width in bits of an integer kind, [int] being 64 bits wide. *)
Definition bitsOf (k : IntKind) : Z :=
  match k with
  | KInt => 64
  | KInt8 => 8
  | KInt16 => 16
  | KInt32 => 32
  end.

(** The conversion of an [int64] to a signed integer of [bits] bits, as
    [reflect.Value.SetInt] does it: the low bits, read in two's
    complement. *)
Definition wrapInt (bits : Z) (x : Z) : Z :=
  (x + 2 ^ (bits - 1)) mod 2 ^ bits - 2 ^ (bits - 1).

(** ** The target record *)

(** The value a field holds, [F] being [float64] and [T] [time.Time].  A
    float carries the kind of its field: [VFloat KFloat32 f] is
    [float32(f)].  A nil slice, map, interface or pointer is [None].
    [VOther] is a value of a kind without a case, by its [%v] text. *)
#[warnings="-register-all"]
Inductive Value (F T : Type) : Type :=
  | VInt (z : Z)
  | VFloat (k : FloatKind) (f : F)
  | VStr (s : string)
  | VBool (b : bool)
  | VBytes (b : option string)
  | VSlice (l : option (list (Value F T)))
  | VMap (m : option (gmap string (Value F T)))
  | VTime (t : T)
  | VStruct (fields : list (Value F T))
  | VIface (x : option (Raw F T))
  | VPtr (p : option (Value F T))
  | VOther (text : string).

Arguments VInt {F T} z.
Arguments VFloat {F T} k f.
Arguments VStr {F T} s.
Arguments VBool {F T} b.
Arguments VBytes {F T} b.
Arguments VSlice {F T} l.
Arguments VMap {F T} m.
Arguments VTime {F T} t.
Arguments VStruct {F T} fields.
Arguments VIface {F T} x.
Arguments VPtr {F T} p.
Arguments VOther {F T} text.

(** ** The library functions the source calls *)

Class Runtime : Type := {
  float64 : Type;
  Time : Type;
  (** [float64(0)] and [time.Time{}] *)
  float64_zero : float64;
  Time_zero : Time;
  (** [fmt.Sprintf("%v", f)] for a [float64] and [t.String()] *)
  FormatFloat : float64 → string;
  Time_String : Time → string;
  (** [strconv.Atoi], [strconv.ParseInt(s, 10, 64)],
      [strconv.ParseFloat(s, 64)], [strconv.ParseBool] *)
  strconv_Atoi : string → result Z;
  strconv_ParseInt : string → result Z;
  strconv_ParseFloat : string → result float64;
  strconv_ParseBool : string → result bool;
  (** [time.ParseDuration], in nanoseconds *)
  time_ParseDuration : string → result Z;
  (** [date.Parse] of oarkflow/date, and
      [time.Parse("2006-01-02T15:04:05Z07:00", s)] *)
  date_Parse : string → result Time;
  time_Parse : string → result Time;
  (** [json.Marshal] *)
  json_Marshal : Raw float64 Time → result string;
  (** The global variable [Getenv] of type [GetEnvFn] *)
  Getenv : string → list (Raw float64 Time) → string
}.

(** The order in which the [range] loops of a call visit the entries of a
    map.  Go leaves it unspecified and one call may differ from the next:
    all that is known of it is [RangeVisitsAll]. *)
Class MapOrder : Type := {
  rangeOrder : ∀ {F T : Type}, list (string * Raw F T) → list (string * Raw F T)
}.

(** A [range] loop visits every entry once. *)
Definition RangeVisitsAll (O : MapOrder) : Prop :=
  ∀ (F T : Type) (m : list (string * Raw F T)), rangeOrder m ≡ₚ m.

(** Go's [any], holding a decoded value. *)
Abbreviation any := (Raw float64 Time).

(** The values of the fields of the target record. *)
Abbreviation value := (Value float64 Time).

Section Jenv.

Context {R : Runtime} {O : MapOrder}.

(** *** [fmt]: the verbs [%v] and [%T] on a decoded value *)

Fixpoint insertSorted (kv : string * string) (l : list (string * string))
    : list (string * string) :=
  match l with
  | [] => [kv]
  | kv' :: l' =>
      if String.leb kv.1 kv'.1 then kv :: l
      else kv' :: insertSorted kv l'
  end.

(** [fmt] prints the entries of a map sorted by key. *)
Definition sortEntries (l : list (string * string)) : list (string * string) :=
  foldr insertSorted [] l.

(** [fmt.Sprintf("%v", rawValue)] *)
Fixpoint Sprintf_v (rawValue : any) : string :=
  match rawValue with
  | RNull => "<nil>"
  | RBool b => if b then "true" else "false"
  | RInt z => NilZero.string_of_int (Z.to_int z)
  | RFloat f => FormatFloat f
  | RString s => s
  | RTime t => Time_String t
  | RSeq l => "[" +:+ strings.Join (map Sprintf_v l) " " +:+ "]"
  | RMap m =>
      "map["
      +:+ strings.Join
            (map (λ kv : string * string, kv.1 +:+ ":" +:+ kv.2)
               (sortEntries (map (λ kv : string * any, (kv.1, Sprintf_v kv.2)) m)))
            " "
      +:+ "]"
  end.

(** [fmt.Sprintf("%T", rawValue)] *)
Definition Sprintf_T (rawValue : any) : string :=
  match rawValue with
  | RNull => "<nil>"
  | RBool _ => "bool"
  | RInt _ => "int"
  | RFloat _ => "float64"
  | RString _ => "string"
  | RTime _ => "time.Time"
  | RSeq _ => "[]interface {}"
  | RMap _ => "map[string]interface {}"
  end.

(** *** The placeholder resolver *)

(** [getEnv] *)
Definition getEnv (rawValue : any) : string :=
  let strValue := Sprintf_v rawValue in
  if strings.HasPrefix strValue "${" && strings.HasSuffix strValue "}" then
    let envVar :=
      strings.TrimSpace (strings.slice strValue 2 (String.length strValue - 1)) in
    let parts := strings.SplitN2 envVar ":"%char in
    let envValue := Getenv (parts !!! 0%nat) [] in
    let envValue :=
      if String.eqb envValue "" && bool_decide (1 < length parts)%nat
      then parts !!! 1%nat else envValue in
    strings.RemoveAll envValue "'"%char
  else strValue.

(** *** The scalar converters *)

(** [getEnvValueInt] *)
Definition getEnvValueInt (rawValue : any) : result Z :=
  let val := getEnv rawValue in
  if String.eqb val "" then Ok 0 else strconv_Atoi val.

(** [getEnvValueInt64] *)
Definition getEnvValueInt64 (rawValue : any) : result Z :=
  let val := getEnv rawValue in
  if String.eqb val "" then Ok 0 else strconv_ParseInt (getEnv rawValue).

(** [getEnvValueFloat] *)
Definition getEnvValueFloat (rawValue : any) : result float64 :=
  let val := getEnv rawValue in
  if String.eqb val "" then Ok float64_zero
  else strconv_ParseFloat (getEnv rawValue).

(** [getEnvValueBool] *)
Definition getEnvValueBool (rawValue : any) : result bool :=
  let val := getEnv rawValue in
  if String.eqb val "" then Ok false else strconv_ParseBool (getEnv rawValue).

(** [getEnvValueDuration] *)
Definition getEnvValueDuration (rawValue : any) : result Z :=
  let val := getEnv rawValue in
  if String.eqb val "" then Ok 0 else time_ParseDuration (getEnv rawValue).

(** [getEnvValueTime] *)
Definition getEnvValueTime (rawValue : any) : result Time :=
  let val := getEnv rawValue in
  if String.eqb val "" then Ok Time_zero
  else
    match rawValue with
    | RString _ => date_Parse (getEnv rawValue)
    | RTime t => Ok t
    | _ => time_Parse (getEnv rawValue)
    end.

(** *** The default environment lookup *)

(** [utils.ToString], on a decoded value: a [string] is returned as it
    is, a [fmt.Stringer] (here [time.Time]) through [String()], anything
    else through [%v]; no decoded value is a [[]byte]. *)
Definition ToString (val : any) : string * bool :=
  match val with
  | RString v => (v, true)
  | RTime v => (Time_String v, true)
  | _ => (Sprintf_v val, true)
  end.

(** [getenv], over the process environment [os_Getenv]. *)
Definition getenv (os_Getenv : string → string)
    (v : string) (defaultVal : list any) : string :=
  let val := os_Getenv v in
  if negb (String.eqb val "") then val
  else
    match defaultVal with
    | d :: _ =>
        match d with
        | RNull => ""
        | _ => (ToString d).1
        end
    | [] => ""
    end.

(** *** The zero values *)

(** The zero value of a type: [reflect.Zero], and what [reflect.New] and
    [reflect.MakeSlice] allocate. *)
Fixpoint zero (ty : GoType) : value :=
  match ty with
  | TInt _ | TInt64 | TDuration => VInt 0
  | TFloat k => VFloat k float64_zero
  | TString => VStr ""
  | TBool => VBool false
  | TBytes => VBytes None
  | TSlice _ => VSlice None
  | TMap _ => VMap None
  | TTime => VTime Time_zero
  | TStruct fields => VStruct (map (λ f, zero (Type_ f)) fields)
  | TInterface => VIface None
  | TPtr _ => VPtr None
  | TOther _ zeroText => VOther zeroText
  end.

(** *** The field walker *)

(** What a call leaves behind: the value of the field (or the values of
    the fields of the record) after the call, and the error returned,
    [None] for [nil]. *)
Definition outcome (A : Type) : Type := A * option error.

(** The lookup key of a field: the [json] tag up to its first comma, and
    the [yaml] tag up to its first comma when that is empty. *)
Definition fieldKey (field : StructField GoType) : string :=
  let key := strings.SplitHead (Tag_Get (Tag field) "json") ","%char in
  if String.eqb key "" then strings.SplitHead (Tag_Get (Tag field) "yaml") ","%char
  else key.

(** The first lines of [setFieldValue]: a field of pointer type is set to
    a pointer to a new zero value, and [set] goes on with that value. *)
Definition throughPtr (set : GoType → value → any → outcome value)
    (ty : GoType) (field : value) (rawValue : any) : outcome value :=
  match ty with
  | TPtr elem =>
      let '(v, err) := set elem (zero elem) rawValue in (VPtr (Some v), err)
  | _ => set ty field rawValue
  end.

(** The loop of [populateFields] over the fields of the record, [set]
    being [setFieldValue]. *)
Fixpoint populateLoop (set : GoType → value → any → outcome value)
    (fields : list (StructField GoType)) (vals : list value)
    (rawMap : list (string * any)) : outcome (list value) :=
  match fields, vals with
  | field :: fields', val :: vals' =>
      match lookupRaw rawMap (fieldKey field) with
      | None =>
          let '(vals'', err) := populateLoop set fields' vals' rawMap in
          (val :: vals'', err)
      | Some rawValue =>
          let '(val', err) := set (Type_ field) val rawValue in
          match err with
          | Some e =>
              (val' :: vals',
               Some ("error setting field '" +:+ Name field +:+ "': " +:+ e))
          | None =>
              let '(vals'', err') := populateLoop set fields' vals' rawMap in
              (val' :: vals'', err')
          end
      end
  | _, _ => (vals, None)
  end.

(** The loop of the slice case: the elements of the new slice, converted
    in order up to the first error. *)
Fixpoint sliceLoop (set : any → outcome value) (rawSlice : list any)
    : result (list value) :=
  match rawSlice with
  | [] => Ok []
  | rawValue :: rawSlice' =>
      let '(elem, err) := set rawValue in
      match err with
      | Some e => Err e
      | None =>
          match sliceLoop set rawSlice' with
          | Ok elems => Ok (elem :: elems)
          | Err e => Err e
          end
      end
  end.

(** The loop of the map case over the entries in the order [range] gives
    them: each is converted and stored in the new map, up to the first
    error. *)
Fixpoint mapLoop (set : any → outcome value) (rawMap : list (string * any))
    (newMap : gmap string value) : result (gmap string value) :=
  match rawMap with
  | [] => Ok newMap
  | (k, v) :: rawMap' =>
      let '(elem, err) := set v in
      match err with
      | Some e => Err e
      | None => mapLoop set rawMap' (<[k := elem]> newMap)
      end
  end.

(** The [%v] text of a value of a kind without a case. *)
Definition otherText (field : value) : string :=
  match field with
  | VOther text => text
  | _ => ""
  end.

(** The [switch] of [setFieldValue] on the kind of the field, the pointer
    being followed already.  A pointer met here is the nil pointer just
    allocated for a pointer to a pointer, and has no case.  The value of a
    struct field is a [VStruct]; the switch leaves any other, which the
    record cannot hold, as it is. *)
Fixpoint setKind (ty : GoType) (field : value) (rawValue : any) {struct ty}
    : outcome value :=
  match ty with
  | TInt k =>
      match getEnvValueInt rawValue with
      | Err e => (field, Some e)
      | Ok val => (VInt (wrapInt (bitsOf k) val), None)
      end
  | TDuration =>
      match getEnvValueDuration rawValue with
      | Err e => (field, Some e)
      | Ok val => (VInt (wrapInt 64 val), None)
      end
  | TInt64 =>
      match getEnvValueInt64 rawValue with
      | Err e => (field, Some e)
      | Ok val => (VInt (wrapInt 64 val), None)
      end
  | TFloat k =>
      match getEnvValueFloat rawValue with
      | Err e => (field, Some e)
      | Ok val => (VFloat k val, None)
      end
  | TString => (VStr (getEnv rawValue), None)
  | TBool =>
      match getEnvValueBool rawValue with
      | Err e => (field, Some e)
      | Ok val => (VBool val, None)
      end
  | TBytes =>
      match rawValue with
      | RNull => (field, None)
      | _ =>
          match json_Marshal rawValue with
          | Err e => (field, Some e)
          | Ok bt => (VBytes (Some bt), None)
          end
      end
  | TSlice elem =>
      match rawValue with
      | RSeq rawSlice =>
          match sliceLoop (throughPtr setKind elem (zero elem)) rawSlice with
          | Err e => (field, Some e)
          | Ok slice => (VSlice (Some slice), None)
          end
      | _ =>
          (field, Some ("expected slice for field, got " +:+ Sprintf_T rawValue))
      end
  | TMap elem =>
      match rawValue with
      | RMap rawMap =>
          match mapLoop (throughPtr setKind elem (zero elem))
                  (rangeOrder rawMap) ∅ with
          | Err e => (field, Some e)
          | Ok newMap => (VMap (Some newMap), None)
          end
      | _ =>
          (field, Some ("expected map for field, got " +:+ Sprintf_T rawValue))
      end
  | TTime =>
      match getEnvValueTime rawValue with
      | Err e => (field, Some e)
      | Ok val => (VTime val, None)
      end
  | TStruct fields =>
      match rawValue with
      | RMap rawStructMap =>
          match field with
          | VStruct vals =>
              let '(vals', err) :=
                populateLoop (throughPtr setKind) fields vals rawStructMap in
              (VStruct vals', err)
          | _ => (field, None)
          end
      | _ =>
          (field,
           Some ("expected struct map for field, got " +:+ Sprintf_T rawValue))
      end
  | TInterface =>
      match rawValue with
      | RNull => (field, None)
      | _ => (VIface (Some rawValue), None)
      end
  | TPtr _ =>
      (field,
       Some ("unsupported field type: ptr <nil> " +:+ Sprintf_v rawValue))
  | TOther kind _ =>
      (field,
       Some ("unsupported field type: " +:+ kind +:+ " " +:+ otherText field
             +:+ " " +:+ Sprintf_v rawValue))
  end.

(** [setFieldValue] *)
Definition setFieldValue (ty : GoType) (field : value) (rawValue : any)
    : outcome value :=
  throughPtr setKind ty field rawValue.

(** [populateFields], on the fields [vals] of the record [cfg] points to,
    of the struct type with the fields [fields]. *)
Definition populateFields (fields : list (StructField GoType))
    (vals : list value) (rawMap : list (string * any)) : outcome (list value) :=
  populateLoop setFieldValue fields vals rawMap.

(** [UnmarshalJSON], [json_Unmarshal] being [json.Unmarshal] into a
    [map[string]any]. *)
Definition UnmarshalJSON (json_Unmarshal : string → result (list (string * any)))
    (jsonData : string) (fields : list (StructField GoType))
    (vals : list value) : outcome (list value) :=
  match json_Unmarshal jsonData with
  | Err err => (vals, Some ("error unmarshalling json: " +:+ err))
  | Ok rawMap => populateFields fields vals rawMap
  end.

(** [UnmarshalYAML], [yaml_Unmarshal] being [yaml.Unmarshal] into a
    [map[string]any]. *)
Definition UnmarshalYAML (yaml_Unmarshal : string → result (list (string * any)))
    (yamlData : string) (fields : list (StructField GoType))
    (vals : list value) : outcome (list value) :=
  match yaml_Unmarshal yamlData with
  | Err err => (vals, Some ("error unmarshalling yaml: " +:+ err))
  | Ok rawMap => populateFields fields vals rawMap
  end.

(** *** The vocabulary of the theorems *)

(** One turn of the loop of [populateFields]: the field is left alone when
    its key is not in the document, and set from the value under it
    otherwise. *)
Definition fieldTurn (set : GoType → value → any → outcome value)
    (field : StructField GoType) (val : value)
    (rawMap : list (string * any)) : outcome value :=
  match lookupRaw rawMap (fieldKey field) with
  | None => (val, None)
  | Some rawValue => set (Type_ field) val rawValue
  end.

(** The error of [populateFields] for the field [name]. *)
Definition fieldError (name : string) (e : error) : error :=
  "error setting field '" +:+ name +:+ "': " +:+ e.

(** The scalar kinds of the conversion table. *)
Definition isScalar (ty : GoType) : bool :=
  match ty with
  | TInt _ | TInt64 | TDuration | TFloat _ | TString | TBool | TTime => true
  | _ => false
  end.

(** A setter that gives the same outcome when it is run again on the
    value it left. *)
Definition Settled (set : value → any → outcome value) : Prop :=
  ∀ field rawValue,
    set (set field rawValue).1 rawValue = set field rawValue.

(** Two outcomes with the same value that are both errors or both not. *)
Definition sameOutcome {A} (o1 o2 : outcome A) : Prop :=
  o1.1 = o2.1 ∧ (o1.2 = None ↔ o2.2 = None).

(** Two results that are the same value or are both errors. *)
Definition sameResult {A} (r1 r2 : result A) : Prop :=
  match r1, r2 with
  | Ok a1, Ok a2 => a1 = a2
  | Err _, Err _ => True
  | _, _ => False
  end.

(** The values of the fields of a record have the types of the fields,
    [has] telling the values of a type. *)
Fixpoint fieldsHaveTypes (has : GoType → value → Prop)
    (fields : list (StructField GoType)) (vals : list value) : Prop :=
  match fields, vals with
  | [], [] => True
  | field :: fields', val :: vals' =>
      has (Type_ field) val ∧ fieldsHaveTypes has fields' vals'
  | _, _ => False
  end.

(** The values a variable of a type can hold: an integer within the range
    of its kind, a float of its kind, a slice or map (nil or not) of values
    of the element type, a struct with a value for each field, a pointer
    that is nil or points to a value of the pointed-to type. *)
Fixpoint hasType (ty : GoType) (v : value) {struct ty} : Prop :=
  match ty, v with
  | TInt k, VInt z => - 2 ^ (bitsOf k - 1) ≤ z < 2 ^ (bitsOf k - 1)
  | TInt64, VInt z | TDuration, VInt z => - 2 ^ 63 ≤ z < 2 ^ 63
  | TFloat k, VFloat k' _ => k = k'
  | TString, VStr _ | TBool, VBool _ | TBytes, VBytes _
  | TTime, VTime _ | TInterface, VIface _ | TOther _ _, VOther _ => True
  | TSlice elem, VSlice None | TMap elem, VMap None | TPtr elem, VPtr None =>
      True
  | TSlice elem, VSlice (Some l) => Forall (hasType elem) l
  | TMap elem, VMap (Some m) => map_Forall (λ _, hasType elem) m
  | TStruct fields, VStruct vals => fieldsHaveTypes hasType fields vals
  | TPtr elem, VPtr (Some p) => hasType elem p
  | _, _ => False
  end.

(** A decoded value without a placeholder: its text does not start with
    ["${"], nor does that of the values in it. *)
Fixpoint literal (rawValue : any) : bool :=
  negb (strings.HasPrefix (Sprintf_v rawValue) "${")
  && match rawValue with
     | RSeq l => forallb literal l
     | RMap m => forallb (λ kv, literal kv.2) m
     | _ => true
     end.

(** *** Properties in the words of the specification *)

(** What the resolver would return if the name and the default were taken
    from the text between the braces as it stands: the property of C1 as
    the specification words it. *)
Definition resolves_untrimmed : Prop :=
  ∀ (rawValue : any) (name : string),
    ¬ hasByte ":" name →
    (Getenv name [] ≠ "" →
     Sprintf_v rawValue = "${" +:+ name +:+ "}"
     ∨ (∃ dflt, Sprintf_v rawValue = "${" +:+ (name +:+ ":" +:+ dflt) +:+ "}") →
     getEnv rawValue = strings.RemoveAll (Getenv name []) "'"%char)
    ∧ (∀ dflt, Getenv name [] = "" →
       Sprintf_v rawValue = "${" +:+ (name +:+ ":" +:+ dflt) +:+ "}" →
       getEnv rawValue = strings.RemoveAll dflt "'"%char)
    ∧ (Getenv name [] = "" →
       Sprintf_v rawValue = "${" +:+ name +:+ "}" →
       getEnv rawValue = "").

(** The timestamp rule as the specification words it: a native timestamp
    as it is; otherwise the resolved string, the zero time when empty, read
    by the flexible parser and, when that fails, by the RFC 3339 one. *)
Definition timeWithFallback (rawValue : any) : result Time :=
  match rawValue with
  | RTime t => Ok t
  | _ =>
      let val := getEnv rawValue in
      if String.eqb val "" then Ok Time_zero
      else
        match date_Parse val with
        | Ok t => Ok t
        | Err _ => time_Parse val
        end
  end.

(** The property of C3 as the specification words it: a field without a
    [json] and without a [yaml] tag keeps its value whatever the
    document. *)
Definition untagged_unreachable : Prop :=
  ∀ fields vals (rawMap : list (string * any)) (i : nat) field,
    fields !! i = Some field →
    Tag_Get (Tag field) "json" = "" →
    Tag_Get (Tag field) "yaml" = "" →
    (populateFields fields vals rawMap).1 !! i = vals !! i.

End Jenv.

(** The runtime [R] after the assignment of [lookup] to the variable
    [Getenv]. *)
Definition withGetenv (R : Runtime)
    (lookup : string → list (Raw float64 Time) → string) : Runtime := {|
  float64 := float64;
  Time := Time;
  float64_zero := float64_zero;
  Time_zero := Time_zero;
  FormatFloat := FormatFloat;
  Time_String := Time_String;
  strconv_Atoi := strconv_Atoi;
  strconv_ParseInt := strconv_ParseInt;
  strconv_ParseFloat := strconv_ParseFloat;
  strconv_ParseBool := strconv_ParseBool;
  time_ParseDuration := time_ParseDuration;
  date_Parse := date_Parse;
  time_Parse := time_Parse;
  json_Marshal := json_Marshal;
  Getenv := lookup
|}.

(** ** A runtime to run the functions on

    Floats are the integers, a time is a number of seconds since 1970, the
    parsers read decimal numbers, the boolean words, durations with a
    whole magnitude and a few dates; the environment is a list of
    bindings. *)

Module Demo.

Definition digit (c : ascii) : option Z :=
  let n := Z.of_N (N_of_ascii c) in
  if (48 <=? n) && (n <=? 57) then Some (n - 48) else None.

Fixpoint digits (acc : Z) (s : string) : option Z :=
  match s with
  | EmptyString => Some acc
  | String c s' =>
      match digit c with
      | Some d => digits (10 * acc + d) s'
      | None => None
      end
  end.

(** A decimal integer with an optional sign, within the 64-bit range. *)
Definition parseDecimal (fn : string) (s : string) : result Z :=
  let bad := Err (fn +:+ ": parsing " +:+ s +:+ ": invalid syntax") in
  let number (sign : Z) (body : string) :=
    match body with
    | EmptyString => bad
    | _ =>
        match digits 0 body with
        | Some n =>
            let z := sign * n in
            if (- 2 ^ 63 <=? z) && (z <? 2 ^ 63) then Ok z
            else Err (fn +:+ ": parsing " +:+ s +:+ ": value out of range")
        | None => bad
        end
    end in
  match s with
  | String "-" body => number (-1) body
  | String "+" body => number 1 body
  | _ => number 1 s
  end.

Definition parseBool (s : string) : result bool :=
  if existsb (String.eqb s) ["1"; "t"; "T"; "TRUE"; "true"; "True"] then Ok true
  else if existsb (String.eqb s) ["0"; "f"; "F"; "FALSE"; "false"; "False"]
  then Ok false
  else Err ("strconv.ParseBool: parsing " +:+ s +:+ ": invalid syntax").

(** The unit of a duration, in nanoseconds. *)
Definition unitOf (u : string) : option Z :=
  if String.eqb u "ns" then Some 1
  else if String.eqb u "us" then Some 1000
  else if String.eqb u "ms" then Some 1000000
  else if String.eqb u "s" then Some 1000000000
  else if String.eqb u "m" then Some 60000000000
  else if String.eqb u "h" then Some 3600000000000
  else None.

Fixpoint splitDigits (s : string) : string * string :=
  match s with
  | EmptyString => (EmptyString, EmptyString)
  | String c s' =>
      match digit c with
      | Some _ => let '(d, u) := splitDigits s' in (String c d, u)
      | None => (EmptyString, s)
      end
  end.

Definition parseDuration (s : string) : result Z :=
  let '(d, u) := splitDigits s in
  match d, digits 0 d, unitOf u with
  | String _ _, Some n, Some k => Ok (n * k)
  | _, _, _ => Err ("time: invalid duration " +:+ s)
  end.

(** The dates [time.Parse] reads with the RFC 3339 layout. *)
Definition rfc3339 : list (string * Z) :=
  [("2024-02-01T15:00:00Z", 1706799600); ("2023-01-01T00:00:00Z", 1672531200)].

(** The dates the flexible parser reads: those, a day and a year. *)
Definition flexible : list (string * Z) :=
  rfc3339 ++ [("2024-02-01", 1706745600); ("2024", 1704067200)].

Fixpoint assoc {A} (l : list (string * A)) (k : string) : option A :=
  match l with
  | [] => None
  | (k', a) :: l' => if String.eqb k' k then Some a else assoc l' k
  end.

Definition parseWith (table : list (string * Z)) (what : string) (s : string)
    : result Z :=
  match assoc table s with
  | Some t => Ok t
  | None => Err (what +:+ s)
  end.

Definition showZ (z : Z) : string := NilZero.string_of_int (Z.to_int z).

(** The runtime with the environment [env]. *)
Definition runtime (env : list (string * string)) : Runtime := {|
  float64 := Z;
  Time := Z;
  float64_zero := 0;
  Time_zero := 0;
  FormatFloat := showZ;
  Time_String := λ t, "unix " +:+ showZ t;
  strconv_Atoi := parseDecimal "strconv.Atoi";
  strconv_ParseInt := parseDecimal "strconv.ParseInt";
  strconv_ParseFloat := parseDecimal "strconv.ParseFloat";
  strconv_ParseBool := parseBool;
  time_ParseDuration := parseDuration;
  date_Parse := parseWith flexible "Could not find format for ";
  time_Parse := parseWith rfc3339 "parsing time ";
  json_Marshal := λ _, Err "json: unsupported value";
  Getenv := λ v _, default "" (assoc env v)
|}.

(** A [range] that visits the entries as they are listed, and one that
    visits them from the last to the first. *)
Definition listed : MapOrder := {| rangeOrder := λ F T m, m |}.

Definition backwards : MapOrder := {| rangeOrder := λ F T m, reverse m |}.

End Demo.

(** A record with a string, a slice of strings and a string. *)
Definition threeFields : list (StructField GoType) :=
  [ mkField "Name" [("json", "name")] TString;
    mkField "Hosts" [("json", "hosts,omitempty")] (TSlice TString);
    mkField "Region" [("yaml", "region")] TString ].

(** The types [Service], [Database] and [Config] of [env_test.go]. *)
Definition tService : GoType :=
  TStruct [ mkField "Name" [("json", "name")] TString;
            mkField "Enabled" [("json", "enabled")] TBool;
            mkField "Rate" [("json", "rate")] (TFloat KFloat64);
            mkField "Timeout" [("json", "timeout")] TDuration;
            mkField "StartTime" [("json", "start_time")] TTime ].

Definition tDatabase : GoType :=
  TStruct [ mkField "Hosts" [("json", "hosts")] (TSlice TString);
            mkField "Ports" [("json", "ports")] (TMap (TInt KInt)) ].

Definition tConfig : list (StructField GoType) :=
  [ mkField "Service" [("json", "service")] tService;
    mkField "Database" [("json", "database")] tDatabase ].


(** ** Facts about the byte-string functions *)

Lemma append_cons (a : ascii) (s1 s2 : string) :
  String a s1 +:+ s2 = String a (s1 +:+ s2).
Proof. reflexivity. Qed.

Lemma append_empty (s : string) : "" +:+ s = s.
Proof. reflexivity. Qed.

Lemma rev_app_append (s1 s2 acc : string) :
  String.rev_app (s1 +:+ s2) acc = String.rev_app s2 (String.rev_app s1 acc).
Proof.
  revert acc. induction s1 as [|a s1 IH]; intros acc; [done|].
  rewrite append_cons. cbn. apply IH.
Qed.

Lemma HasSuffix_append_byte (s : string) (c : ascii) :
  strings.HasSuffix (s +:+ String c "") (String c "") = true.
Proof.
  unfold strings.HasSuffix, String.rev. rewrite rev_app_append. cbn.
  destruct (ascii_dec c c); [|done].
  by destruct (String.rev_app s "").
Qed.

Lemma substring_whole_append (s1 s2 : string) :
  String.substring 0 (String.length s1) (s1 +:+ s2) = s1.
Proof.
  induction s1 as [|a s1 IH].
  - rewrite append_empty. by destruct s2.
  - rewrite append_cons. cbn. by rewrite IH.
Qed.

Lemma length_append (s1 s2 : string) :
  String.length (s1 +:+ s2) = (String.length s1 + String.length s2)%nat.
Proof.
  induction s1 as [|a s1 IH]; [done|].
  rewrite append_cons. cbn. by rewrite IH.
Qed.

(** The text between the braces of a placeholder. *)
Lemma slice_placeholder (body : string) :
  let strValue := "${" +:+ body +:+ "}" in
  strings.slice strValue 2 (String.length strValue - 1) = body.
Proof.
  intros strValue. subst strValue. rewrite !append_cons, append_empty.
  unfold strings.slice. cbn [String.length]. rewrite length_append.
  cbn [String.length].
  replace (S (S (String.length body + 1)) - 1 - 2)%nat
    with (String.length body) by lia.
  cbn [String.substring]. apply substring_whole_append.
Qed.

Lemma placeholder_shape (body : string) :
  let strValue := "${" +:+ body +:+ "}" in
  strings.HasPrefix strValue "${" && strings.HasSuffix strValue "}" = true.
Proof.
  intros strValue. subst strValue.
  change ("${" +:+ body +:+ "}") with (("${" +:+ body) +:+ "}").
  rewrite HasSuffix_append_byte, !append_cons, append_empty.
  unfold strings.HasPrefix. cbn. by destruct (body +:+ "}").
Qed.


Lemma Cut_absent (sep : ascii) (s : string) :
  ¬ hasByte sep s → strings.Cut sep s = None.
Proof.
  unfold hasByte. induction s as [|a s IH]; cbn; [done|]. intros Hin.
  destruct (Ascii.eqb_spec a sep) as [->|Hne]; [tauto|].
  rewrite IH; [done|tauto].
Qed.

Lemma Cut_first (sep : ascii) (before after : string) :
  ¬ hasByte sep before →
  strings.Cut sep (before +:+ String sep after) = Some (before, after).
Proof.
  unfold hasByte. induction before as [|a s IH].
  - intros _. rewrite append_empty. cbn. by rewrite Ascii.eqb_refl.
  - intros Hin. rewrite append_cons. cbn in Hin |- *.
    destruct (Ascii.eqb_spec a sep) as [->|Hne]; [tauto|].
    rewrite IH; [done|tauto].
Qed.

(** The functions on the inputs of the package documentation. *)
Example TrimSpace_unicode :
  strings.TrimSpace
    (String (ascii_of_nat 194) (String (ascii_of_nat 160) "  HOST : db 1 	"))
  = "HOST : db 1".
Proof. reflexivity. Qed.

Example SplitN2_first_colon :
  strings.SplitN2 "START_TIME:2023-01-01T00:00:00Z" ":"%char
  = ["START_TIME"; "2023-01-01T00:00:00Z"]
  ∧ strings.SplitN2 "START_TIME" ":"%char = ["START_TIME"].
Proof. by split. Qed.

Example SplitHead_tag :
  strings.SplitHead "hosts,omitempty" ","%char = "hosts"
  ∧ strings.SplitHead "" ","%char = ""
  ∧ strings.SplitHead ",omitempty" ","%char = "".
Proof. by split_and!. Qed.

Example HasSuffix_brace :
  strings.HasSuffix "${A}" "}" = true ∧ strings.HasSuffix "${" "}" = false.
Proof. by split. Qed.

(** ** The placeholder resolver *)

Section Resolver.

Context {R : Runtime}.

(** The body of [getEnv] on a placeholder, in terms of the trimmed text
    between the braces. *)
Lemma getEnv_on_placeholder (rawValue : any) (body : string) :
  Sprintf_v rawValue = "${" +:+ body +:+ "}" →
  getEnv rawValue =
    let parts := strings.SplitN2 (strings.TrimSpace body) ":"%char in
    let envValue := Getenv (parts !!! 0%nat) [] in
    strings.RemoveAll
      (if String.eqb envValue "" && bool_decide (1 < length parts)%nat
       then parts !!! 1%nat else envValue) "'"%char.
Proof.
  intros Hv. unfold getEnv. rewrite Hv.
  by rewrite placeholder_shape, slice_placeholder.
Qed.


(** C1, amended.  For a raw value whose [%v] text is ["${" body "}"], let
    the trimmed body (leading and trailing white space removed) be [name]
    or [name:default], [name] without a colon.  If the lookup of [name] is
    not empty, [getEnv] returns it without its single quotes, whatever the
    default; if it is empty and there is a default, the default without
    its single quotes; if it is empty and there is no default, the empty
    string. *)
Theorem getEnv_placeholder (rawValue : any) (body name : string) :
  Sprintf_v rawValue = "${" +:+ body +:+ "}" →
  ¬ hasByte ":" name →
  (Getenv name [] ≠ "" →
   strings.TrimSpace body = name
   ∨ (∃ dflt, strings.TrimSpace body = name +:+ ":" +:+ dflt) →
   getEnv rawValue = strings.RemoveAll (Getenv name []) "'"%char)
  ∧ (∀ dflt, Getenv name [] = "" →
     strings.TrimSpace body = name +:+ ":" +:+ dflt →
     getEnv rawValue = strings.RemoveAll dflt "'"%char)
  ∧ (Getenv name [] = "" →
     strings.TrimSpace body = name →
     getEnv rawValue = "").
Proof.
  intros Hv Hname. rewrite (getEnv_on_placeholder _ _ Hv).
  unfold strings.SplitN2. split_and!.
  - intros Hset [->|[dflt ->]].
    + rewrite (Cut_absent _ _ Hname). cbn.
      by rewrite andb_false_r.
    + rewrite append_cons, append_empty, (Cut_first _ _ _ Hname). cbn.
      by destruct (String.eqb_spec (Getenv name []) "").
  - intros dflt Hunset ->.
    rewrite append_cons, append_empty, (Cut_first _ _ _ Hname). cbn.
    by rewrite Hunset.
  - intros Hunset ->. rewrite (Cut_absent _ _ Hname). cbn.
    by rewrite Hunset.
Qed.

(** With no default passed, as in [getEnv], the lookup [getenv] installed
    by [init] is that of the process environment. *)
Lemma getenv_no_default (os_Getenv : string → string) (v : string) :
  getenv os_Getenv v [] = os_Getenv v.
Proof.
  unfold getenv. by destruct (String.eqb_spec (os_Getenv v) "") as [->|].
Qed.

End Resolver.

(** C1 as worded fails where the body has white space at an end: with [A]
    unset, ["${A:x }"] resolves to ["x"] and not to the default ["x "]. *)
Lemma getEnv_trims_default : ¬ resolves_untrimmed (R := Demo.runtime []).
Proof.
  intros H.
  destruct (H (RString "${A:x }") "A") as (_ & Hdflt & _).
  { vm_compute. intros [?|[]]; discriminate. }
  specialize (Hdflt "x " eq_refl eq_refl). vm_compute in Hdflt. discriminate.
Qed.

Lemma getEnv_placeholder_witness :
  let R := Demo.runtime [("B", "it's")] in
  Sprintf_v (RString "${ B:y }") = "${" +:+ " B:y " +:+ "}"
  ∧ ¬ hasByte ":" "B"
  ∧ Getenv "B" [] ≠ ""
  ∧ getEnv (RString "${ B:y }") = "its".
Proof.
  intros R.
  assert (Hv : Sprintf_v (RString "${ B:y }") = "${" +:+ " B:y " +:+ "}")
    by reflexivity.
  assert (Hname : ¬ hasByte ":" "B").
  { vm_compute. intros [?|[]]; discriminate. }
  assert (Hset : Getenv "B" [] ≠ "") by (vm_compute; discriminate).
  split_and!; [done..|].
  apply (proj1 (getEnv_placeholder (RString "${ B:y }") " B:y " "B" Hv Hname)).
  - exact Hset.
  - right. by exists "y".
Defined.

(** ** The scalar converters *)

Section Converters.

Context {R : Runtime} {O : MapOrder}.


(** C2, amended.  When the resolved string is not empty, [getEnvValueTime]
    reads it with the flexible parser alone if the raw value is a string
    (the error of that parser is returned, without a second attempt), uses
    a native timestamp as it is, and reads the resolved string of any other
    raw value with the RFC 3339 layout alone. *)
Theorem getEnvValueTime_by_raw_type (rawValue : any) :
  getEnv rawValue ≠ "" →
  getEnvValueTime rawValue =
    match rawValue with
    | RString _ => date_Parse (getEnv rawValue)
    | RTime t => Ok t
    | _ => time_Parse (getEnv rawValue)
    end.
Proof.
  intros Hval. unfold getEnvValueTime.
  by destruct (String.eqb_spec (getEnv rawValue) "").
Qed.


Lemma wrapInt_zero (k : IntKind) : wrapInt (bitsOf k) 0 = 0.
Proof. by destruct k. Qed.

(** C6.  When the raw value of a scalar field resolves to the empty string,
    the field is set to the zero value of its kind and no error is
    returned. *)
Theorem setFieldValue_empty_scalar (ty : GoType) (field : value) (rawValue : any) :
  isScalar ty = true →
  getEnv rawValue = "" →
  setFieldValue ty field rawValue = (zero ty, None).
Proof.
  intros Hty Hval.
  destruct ty; try discriminate Hty; cbn;
    unfold getEnvValueInt, getEnvValueInt64, getEnvValueDuration,
      getEnvValueFloat, getEnvValueBool, getEnvValueTime;
    rewrite Hval; cbn; by rewrite ?wrapInt_zero.
Qed.

End Converters.

(** C2 as worded fails on a raw value that is neither a string nor a
    timestamp: the number 2024 is read with the RFC 3339 layout, which
    rejects it, and the flexible parser, which reads a year, is not
    tried. *)
Lemma getEnvValueTime_number_not_flexible :
  let R := Demo.runtime [] in
  getEnvValueTime (RInt 2024) = Err "parsing time 2024"
  ∧ timeWithFallback (RInt 2024) = Ok 1704067200
  ∧ getEnvValueTime (RInt 2024) ≠ timeWithFallback (RInt 2024).
Proof. by vm_compute. Qed.

Lemma getEnvValueTime_by_raw_type_witness :
  let R := Demo.runtime [("START_TIME", "2024-02-01T15:00:00Z")] in
  getEnv (RString "${START_TIME}") ≠ ""
  ∧ getEnvValueTime (RString "${START_TIME}") = Ok 1706799600.
Proof.
  intros R.
  assert (Hval : getEnv (RString "${START_TIME}") ≠ "")
    by (vm_compute; discriminate).
  split; [exact Hval|].
  by rewrite (getEnvValueTime_by_raw_type (RString "${START_TIME}") Hval).
Defined.

Lemma setFieldValue_empty_scalar_witness :
  let R := Demo.runtime [] in
  let O := Demo.listed in
  isScalar TDuration = true
  ∧ getEnv (RString "${TIMEOUT}") = ""
  ∧ setFieldValue TDuration (VInt 30) (RString "${TIMEOUT}") = (VInt 0, None).
Proof.
  intros R O. split_and!; [done..|].
  by apply (setFieldValue_empty_scalar TDuration (VInt 30) (RString "${TIMEOUT}")).
Defined.

(** ** The loop over the fields of a record *)

Section Loop.

Context {R : Runtime}.

Variable set : GoType → value → any → outcome value.



Lemma populateLoop_cons field fields val vals rawMap :
  populateLoop set (field :: fields) (val :: vals) rawMap =
    match fieldTurn set field val rawMap with
    | (val', Some e) => (val' :: vals, Some (fieldError (Name field) e))
    | (val', None) =>
        let '(vals', err) := populateLoop set fields vals rawMap in
        (val' :: vals', err)
    end.
Proof.
  unfold fieldTurn. cbn.
  destruct (lookupRaw rawMap (fieldKey field)) as [rawValue|]; [|done].
  by destruct (set (Type_ field) val rawValue) as [val' [e|]].
Qed.

(** A field whose key is not in the document keeps its value. *)
Lemma populateLoop_absent fields vals rawMap (i : nat) field :
  fields !! i = Some field →
  lookupRaw rawMap (fieldKey field) = None →
  (populateLoop set fields vals rawMap).1 !! i = vals !! i.
Proof.
  revert vals i.
  induction fields as [|f fields IH]; intros [|val vals] i Hi Hkey;
    try done.
  rewrite populateLoop_cons. destruct i as [|i]; simplify_eq/=.
  - unfold fieldTurn. rewrite Hkey.
    by destruct (populateLoop set fields vals rawMap).
  - specialize (IH vals i Hi Hkey).
    destruct (fieldTurn set f val rawMap) as [val' [e|]]; [done|].
    by destruct (populateLoop set fields vals rawMap).
Qed.

(** A field whose key is not in the document could as well not be
    declared. *)
Lemma populateLoop_skip pre field post vpre val vpost rawMap :
  length vpre = length pre →
  lookupRaw rawMap (fieldKey field) = None →
  populateLoop set (pre ++ field :: post) (vpre ++ val :: vpost) rawMap =
    let '(vals, err) := populateLoop set (pre ++ post) (vpre ++ vpost) rawMap in
    (take (length pre) vals ++ val :: drop (length pre) vals, err).
Proof.
  intros Hlen Hkey. revert vpre Hlen.
  induction pre as [|f pre IH]; intros [|v vpre] Hlen; simplify_eq/=.
  - rewrite Hkey. by destruct (populateLoop set post vpost rawMap).
  - specialize (IH vpre Hlen).
    destruct (lookupRaw rawMap (fieldKey f)) as [rawValue|].
    + destruct (set (Type_ f) v rawValue) as [v' [e|]].
      * (* the loop stops at [f], before the field is met *)
        cbn. by rewrite take_app_length', drop_app_length'.
      * rewrite IH.
        by destruct (populateLoop set (pre ++ post) (vpre ++ vpost) rawMap).
    + rewrite IH.
      by destruct (populateLoop set (pre ++ post) (vpre ++ vpost) rawMap).
Qed.

(** When the loop returns an error, it is the error of one field [i],
    under the name of that field; the fields before it were set without
    error and hold what they were set to, the field itself holds what its
    conversion left in it, and the fields after it were not visited. *)
Lemma populateLoop_error fields vals rawMap vals' e :
  populateLoop set fields vals rawMap = (vals', Some e) →
  ∃ (i : nat) field val e0,
    fields !! i = Some field ∧ vals !! i = Some val
    ∧ (fieldTurn set field val rawMap).2 = Some e0
    ∧ e = fieldError (Name field) e0
    ∧ vals' !! i = Some (fieldTurn set field val rawMap).1
    ∧ (∀ (j : nat) fj vj, (j < i)%nat →
         fields !! j = Some fj → vals !! j = Some vj →
         (fieldTurn set fj vj rawMap).2 = None
         ∧ vals' !! j = Some (fieldTurn set fj vj rawMap).1)
    ∧ (∀ j : nat, (i < j)%nat → vals' !! j = vals !! j).
Proof.
  revert vals vals'.
  induction fields as [|f fields IH]; intros [|val vals] vals' Hrun;
    try discriminate Hrun.
  rewrite populateLoop_cons in Hrun.
  destruct (fieldTurn set f val rawMap) as [val' [e0|]] eqn:Hturn.
  - simplify_eq. exists 0%nat, f, val, e0. rewrite Hturn.
    split_and!; try done.
    + intros j fj vj Hj. lia.
    + by intros [|j] Hj; [lia|].
  - destruct (populateLoop set fields vals rawMap) as [vals'' err] eqn:Hrest.
    simplify_eq.
    destruct (IH vals vals'' Hrest)
      as (i & field & v & e0 & Hf & Hv & He0 & He & Hi & Hbefore & Hafter).
    exists (S i), field, v, e0. split_and!; try done.
    + intros [|j] fj vj Hj Hfj Hvj; simplify_eq/=.
      * by rewrite Hturn.
      * apply Hbefore; [lia|done..].
    + intros [|j] Hj; [lia|]. cbn. apply Hafter. lia.
Qed.

(** When the field [i] is the first whose conversion fails, the loop stops
    there: it returns the error of that field under its name, the fields
    before it hold what they were set to, the field itself holds what its
    conversion left in it, and the fields after it are as they were. *)
Lemma populateLoop_first_failure fields vals rawMap (i : nat) field val e0 :
  fields !! i = Some field → vals !! i = Some val →
  (fieldTurn set field val rawMap).2 = Some e0 →
  (∀ (j : nat) fj vj, (j < i)%nat →
     fields !! j = Some fj → vals !! j = Some vj →
     (fieldTurn set fj vj rawMap).2 = None) →
  ∃ vals',
    populateLoop set fields vals rawMap
      = (vals', Some (fieldError (Name field) e0))
    ∧ vals' !! i = Some (fieldTurn set field val rawMap).1
    ∧ (∀ (j : nat) fj vj, (j < i)%nat →
         fields !! j = Some fj → vals !! j = Some vj →
         vals' !! j = Some (fieldTurn set fj vj rawMap).1)
    ∧ (∀ j : nat, (i < j)%nat → vals' !! j = vals !! j).
Proof.
  revert vals i.
  induction fields as [|f fields IH]; intros [|v vals] i Hf Hv He0 Hbefore;
    try done.
  rewrite populateLoop_cons. destruct i as [|i]; simplify_eq/=.
  - destruct (fieldTurn set field val rawMap) as [val' err]. cbn in He0.
    subst err. exists (val' :: vals). split_and!; try done.
    + intros j fj vj Hj. lia.
    + by intros [|j] Hj; [lia|].
  - pose proof (Hbefore 0%nat f v (Nat.lt_0_succ i) eq_refl eq_refl) as Hhead.
    destruct (fieldTurn set f v rawMap) as [v' err] eqn:Hturn. cbn in Hhead.
    subst err.
    destruct (IH vals i Hf Hv He0) as (vals' & Hrun & Hi & Hlt & Hgt).
    { intros j fj vj Hj Hfj Hvj. apply (Hbefore (S j) fj vj); [lia|done..]. }
    rewrite Hrun. exists (v' :: vals'). split_and!; try done.
    + intros [|j] fj vj Hj Hfj Hvj; simplify_eq/=.
      * by rewrite Hturn.
      * apply Hlt; [lia|done..].
    + intros [|j] Hj; [lia|]. cbn. apply Hgt. lia.
Qed.

End Loop.

(** ** [populateFields] *)

Section Populate.

Context {R : Runtime} {O : MapOrder}.

Lemma fieldKey_untagged (field : StructField GoType) :
  Tag_Get (Tag field) "json" = "" →
  Tag_Get (Tag field) "yaml" = "" →
  fieldKey field = "".
Proof. unfold fieldKey. by intros -> ->. Qed.


(** C3, amended.  A field without a [json] and without a [yaml] tag is
    looked up under the empty key: it keeps its value after every call on a
    document that has no entry under the empty key. *)
Theorem populateFields_untagged fields vals (rawMap : list (string * any))
    (i : nat) field :
  fields !! i = Some field →
  Tag_Get (Tag field) "json" = "" →
  Tag_Get (Tag field) "yaml" = "" →
  lookupRaw rawMap "" = None →
  (populateFields fields vals rawMap).1 !! i = vals !! i.
Proof.
  intros Hi Hjson Hyaml Hdoc. apply populateLoop_absent with field; [done|].
  by rewrite fieldKey_untagged.
Qed.

(** C4.  When the conversion of a field fails and that of no field before
    it does, [populateFields] returns the error of that field under its
    name, and nothing of the fields after it, which it does not visit;
    every field before it holds the value it was set to, and the failing
    field what its conversion left in it. *)
Theorem populateFields_first_error fields vals (rawMap : list (string * any))
    (i : nat) field val e0 :
  fields !! i = Some field → vals !! i = Some val →
  (fieldTurn setFieldValue field val rawMap).2 = Some e0 →
  (∀ (j : nat) fj vj, (j < i)%nat →
     fields !! j = Some fj → vals !! j = Some vj →
     (fieldTurn setFieldValue fj vj rawMap).2 = None) →
  ∃ vals',
    populateFields fields vals rawMap
      = (vals', Some ("error setting field '" +:+ Name field +:+ "': " +:+ e0))
    ∧ vals' !! i = Some (fieldTurn setFieldValue field val rawMap).1
    ∧ (∀ (j : nat) fj vj, (j < i)%nat →
         fields !! j = Some fj → vals !! j = Some vj →
         vals' !! j = Some (fieldTurn setFieldValue fj vj rawMap).1)
    ∧ (∀ j : nat, (i < j)%nat → vals' !! j = vals !! j).
Proof. apply populateLoop_first_failure. Qed.

(** C5.  A declared field whose key is not in the document is skipped:
    it keeps its value, and the call returns the values and the error it
    returns for the record without that field. *)
Theorem populateFields_absent_key pre field post vpre val vpost
    (rawMap : list (string * any)) :
  length vpre = length pre →
  lookupRaw rawMap (fieldKey field) = None →
  let fields := pre ++ field :: post in
  let vals := vpre ++ val :: vpost in
  (populateFields fields vals rawMap).1 !! length pre = Some val
  ∧ populateFields fields vals rawMap =
      (let '(rest, err) := populateFields (pre ++ post) (vpre ++ vpost) rawMap in
       (take (length pre) rest ++ val :: drop (length pre) rest, err)).
Proof.
  intros Hlen Hkey fields vals. split.
  - unfold populateFields, fields, vals.
    rewrite (populateLoop_absent _ _ _ _ (length pre) field);
      [|by rewrite list_lookup_middle|done].
    by rewrite list_lookup_middle.
  - by apply populateLoop_skip.
Qed.

End Populate.


(** C3 as worded fails on a document with an entry under the empty key:
    the field without tags is set from it. *)
Lemma untagged_set_from_empty_key :
  ¬ untagged_unreachable (R := Demo.runtime []) (O := Demo.listed).
Proof.
  intros H.
  specialize (H [mkField "Secret" [] TString] [VStr ""]
                [("", RString "set")] 0%nat (mkField "Secret" [] TString)
                eq_refl eq_refl eq_refl).
  vm_compute in H. discriminate.
Qed.

Lemma populateFields_untagged_witness :
  let R := Demo.runtime [] in
  let O := Demo.listed in
  let fields := [mkField "Name" [("json", "name")] TString;
                 mkField "Secret" [] TString] in
  let rawMap := [("name", RString "${NAME:jenv}"); ("Secret", RString "set")] in
  lookupRaw rawMap "" = None
  ∧ (populateFields fields [VStr ""; VStr ""] rawMap).1 !! 1%nat = Some (VStr "").
Proof.
  intros R O fields rawMap. split; [done|].
  by rewrite (populateFields_untagged fields [VStr ""; VStr ""] rawMap 1%nat
                (mkField "Secret" [] TString)).
Defined.

Lemma populateFields_first_error_witness :
  let R := Demo.runtime [] in
  let O := Demo.listed in
  let rawMap := [("name", RString "${NAME:jenv}"); ("hosts", RMap []);
                 ("region", RString "eu")] in
  let vals := [VStr ""; VSlice None; VStr ""] in
  let hosts := mkField "Hosts" [("json", "hosts,omitempty")] (TSlice TString) in
  threeFields !! 1%nat = Some hosts ∧ vals !! 1%nat = Some (VSlice None)
  ∧ (fieldTurn setFieldValue hosts (VSlice None) rawMap).2
      = Some "expected slice for field, got map[string]interface {}"
  ∧ ∃ vals',
      populateFields threeFields vals rawMap
        = (vals',
           Some "error setting field 'Hosts': expected slice for field, got map[string]interface {}")
      ∧ vals' !! 0%nat = Some (VStr "jenv")
      ∧ vals' !! 2%nat = Some (VStr "").
Proof.
  intros R O rawMap vals hosts. split_and!; [done..|].
  destruct (populateFields_first_error threeFields vals rawMap 1%nat hosts
              (VSlice None)
              "expected slice for field, got map[string]interface {}"
              eq_refl eq_refl eq_refl)
    as (vals' & Hrun & _ & Hbefore & Hafter).
  { intros [|j] fj vj Hj Hfj Hvj; [by simplify_eq/=|lia]. }
  exists vals'. split_and!; [done| |].
  - by rewrite (Hbefore 0%nat _ (VStr "") (Nat.lt_0_succ 0) eq_refl eq_refl).
  - by rewrite (Hafter 2%nat (Nat.lt_succ_diag_r 1)).
Defined.

Lemma populateFields_absent_key_witness :
  let R := Demo.runtime [] in
  let O := Demo.listed in
  let rawMap := [("name", RString "${NAME:jenv}"); ("region", RString "eu")] in
  lookupRaw rawMap "hosts" = None
  ∧ (populateFields threeFields
       [VStr ""; VSlice (Some [VStr "kept"]); VStr ""] rawMap).1 !! 1%nat
    = Some (VSlice (Some [VStr "kept"])).
Proof.
  intros R O rawMap. split; [done|].
  apply (populateFields_absent_key
           [mkField "Name" [("json", "name")] TString]
           (mkField "Hosts" [("json", "hosts,omitempty")] (TSlice TString))
           [mkField "Region" [("yaml", "region")] TString]
           [VStr ""] (VSlice (Some [VStr "kept"])) [VStr ""] rawMap);
    reflexivity.
Defined.

(** ** [setFieldValue] on slices, maps and pointers *)

Section Collections.

Context {R : Runtime}.

Variable set : any → outcome value.

(** The slice loop succeeds when every element converts, with the
    converted elements in the order of the raw ones. *)
Lemma sliceLoop_ok (rawSlice : list any) :
  (∀ r, r ∈ rawSlice → (set r).2 = None) →
  sliceLoop set rawSlice = Ok ((λ r, (set r).1) <$> rawSlice).
Proof.
  induction rawSlice as [|r rawSlice IH]; intros Hall; [done|]. cbn.
  pose proof (Hall r (list_elem_of_here _ _)) as Hr.
  destruct (set r) as [elem err]. cbn in Hr. subst err.
  rewrite IH; [done|]. intros r' Hr'. apply Hall. by right.
Qed.

(** It fails when some element does not convert. *)
Lemma sliceLoop_err (rawSlice : list any) r :
  r ∈ rawSlice → (set r).2 ≠ None → ∃ e, sliceLoop set rawSlice = Err e.
Proof.
  intros Hin Hr. induction Hin as [r rawSlice|r r' rawSlice Hin IH]; cbn.
  - destruct (set r) as [elem [e|]]; [by exists e|done].
  - destruct (set r') as [elem [e|]]; [by exists e|].
    destruct (IH Hr) as [e ->]. by exists e.
Qed.

(** So does the map loop. *)
Lemma mapLoop_err (entries : list (string * any)) newMap k r :
  (k, r) ∈ entries → (set r).2 ≠ None → ∃ e, mapLoop set entries newMap = Err e.
Proof.
  intros Hin Hr. revert newMap.
  induction entries as [|[k' r'] entries IH]; intros newMap;
    [by apply elem_of_nil in Hin|].
  cbn. apply elem_of_cons in Hin as [[= <- <-]|Hin].
  - destruct (set r) as [elem [e|]]; [by exists e|done].
  - destruct (set r') as [elem [e|]]; [by exists e|]. by apply IH.
Qed.

End Collections.

Section Kinds.

Context {R : Runtime} {O : MapOrder}.

Lemma setFieldValue_not_ptr ty field (rawValue : any) :
  (∀ elem, ty ≠ TPtr elem) →
  setFieldValue ty field rawValue = setKind ty field rawValue.
Proof. intros Hty. destruct ty; try done. by destruct (Hty ty). Qed.

(** Outside the struct case, a field is assigned after the last point
    where [setFieldValue] may return an error. *)
Lemma setKind_error_keeps ty field (rawValue : any) e :
  (∀ fields, ty ≠ TStruct fields) →
  (setKind ty field rawValue).2 = Some e →
  (setKind ty field rawValue).1 = field.
Proof.
  intros Hty.
  destruct ty as [k| | |k| | | |elem|elem| |fields| |elem|kind zeroText];
    try (by destruct (Hty fields));
    cbn; repeat case_match; cbn; done.
Qed.

End Kinds.

Section Fields.

Context {R : Runtime} {O : MapOrder}.

(** C7.  For a field of type slice of [elem], [setFieldValue] returns an
    error that names the type of the raw value when that is not a
    sequence; on a sequence whose elements convert it sets the field to a
    new slice of the same length whose element [i] is the raw element [i]
    converted as a field of type [elem].  With [A] unset and [B] set to
    ["z"], the raw sequence ["${A:x}"], ["${B:y}"] gives the strings
    ["x"], ["z"]. *)
Theorem setFieldValue_slice (elem : GoType) (field : value) :
  (∀ rawValue : any, (∀ l, rawValue ≠ RSeq l) →
     setFieldValue (TSlice elem) field rawValue =
       (field, Some ("expected slice for field, got " +:+ Sprintf_T rawValue)))
  ∧ (∀ rawSlice : list any,
       (∀ r, r ∈ rawSlice → (setFieldValue elem (zero elem) r).2 = None) →
       ∃ slice,
         setFieldValue (TSlice elem) field (RSeq rawSlice)
           = (VSlice (Some slice), None)
         ∧ length slice = length rawSlice
         ∧ ∀ (i : nat) r, rawSlice !! i = Some r →
             slice !! i = Some (setFieldValue elem (zero elem) r).1)
  ∧ (Getenv "A" [] = "" → Getenv "B" [] = "z" →
     setFieldValue (TSlice TString) field
         (RSeq [RString "${A:x}"; RString "${B:y}"])
       = (VSlice (Some [VStr "x"; VStr "z"]), None)).
Proof.
  split_and!.
  - intros rawValue Hraw. destruct rawValue; try done. by destruct (Hraw l).
  - intros rawSlice Hall.
    exists ((λ r, (setFieldValue elem (zero elem) r).1) <$> rawSlice).
    split_and!.
    + cbn. change (throughPtr setKind elem (zero elem))
        with (setFieldValue elem (zero elem)).
      by rewrite sliceLoop_ok.
    + by rewrite length_fmap.
    + intros i r Hi. by rewrite list_lookup_fmap, Hi.
  - intros HA HB. unfold setFieldValue.
    cbn [throughPtr setKind sliceLoop zero].
    rewrite (getEnv_on_placeholder (RString "${A:x}") "A:x" eq_refl).
    rewrite (getEnv_on_placeholder (RString "${B:y}") "B:y" eq_refl).
    change (strings.SplitN2 (strings.TrimSpace "A:x") ":") with ["A"; "x"].
    change (strings.SplitN2 (strings.TrimSpace "B:y") ":") with ["B"; "y"].
    cbn. by rewrite HA, HB.
Qed.

(** C9.  A slice or map field is assigned after all its elements have
    been converted: when an element does not convert, and whenever
    [setFieldValue] returns an error, the field keeps its value.  A struct
    field is set field by field: with a string [Name] and a slice [Hosts],
    a raw value with a string under [hosts] sets [Name] and returns the
    error of [Hosts]. *)
Theorem collections_assigned_last (elem : GoType) (field : value) :
  (∀ (rawSlice : list any) r,
     r ∈ rawSlice → (setFieldValue elem (zero elem) r).2 ≠ None →
     ∃ e, setFieldValue (TSlice elem) field (RSeq rawSlice) = (field, Some e))
  ∧ (∀ (rawMap : list (string * any)) k r,
       (k, r) ∈ rangeOrder rawMap →
       (setFieldValue elem (zero elem) r).2 ≠ None →
       ∃ e, setFieldValue (TMap elem) field (RMap rawMap) = (field, Some e))
  ∧ (∀ (rawValue : any) e,
       (setFieldValue (TSlice elem) field rawValue).2 = Some e →
       (setFieldValue (TSlice elem) field rawValue).1 = field)
  ∧ (∀ (rawValue : any) e,
       (setFieldValue (TMap elem) field rawValue).2 = Some e →
       (setFieldValue (TMap elem) field rawValue).1 = field)
  ∧ setFieldValue
        (TStruct [mkField "Name" [("json", "name")] TString;
                  mkField "Hosts" [("json", "hosts")] (TSlice TString)])
        (VStruct [VStr ""; VSlice None])
        (RMap [("name", RString "jenv"); ("hosts", RString "localhost")])
      = (VStruct [VStr "jenv"; VSlice None],
         Some "error setting field 'Hosts': expected slice for field, got string").
Proof.
  split_and!.
  - intros rawSlice r Hin Hr. cbn.
    destruct (sliceLoop_err (setFieldValue elem (zero elem)) rawSlice r Hin Hr)
      as [e He].
    change (throughPtr setKind elem (zero elem))
      with (setFieldValue elem (zero elem)).
    rewrite He. by exists e.
  - intros rawMap k r Hin Hr. cbn.
    destruct (mapLoop_err (setFieldValue elem (zero elem)) (rangeOrder rawMap)
                ∅ k r Hin Hr) as [e He].
    change (throughPtr setKind elem (zero elem))
      with (setFieldValue elem (zero elem)).
    rewrite He. by exists e.
  - intros rawValue e. rewrite setFieldValue_not_ptr by done.
    by apply setKind_error_keeps.
  - intros rawValue e. rewrite setFieldValue_not_ptr by done.
    by apply setKind_error_keeps.
  - reflexivity.
Qed.

(** C10.  On a field of pointer type, [setFieldValue] stores a pointer to
    a new zero value and converts into that value: the outcome does not
    depend on what the field pointed to, the pointer is not nil whether or
    not an error is returned, and when the conversion of a pointed-to type
    other than a struct fails the field points to the zero value. *)
Theorem setFieldValue_pointer (elem : GoType) (field : value) (rawValue : any) :
  setFieldValue (TPtr elem) field rawValue =
    (VPtr (Some (setKind elem (zero elem) rawValue).1),
     (setKind elem (zero elem) rawValue).2)
  ∧ (∀ field', setFieldValue (TPtr elem) field' rawValue
               = setFieldValue (TPtr elem) field rawValue)
  ∧ (∀ e, (setFieldValue (TPtr elem) field rawValue).2 = Some e →
       (∃ v, (setFieldValue (TPtr elem) field rawValue).1 = VPtr (Some v))
       ∧ ((∀ fields, elem ≠ TStruct fields) →
          (setFieldValue (TPtr elem) field rawValue).1
            = VPtr (Some (zero elem)))).
Proof.
  assert (Hrun : ∀ f, setFieldValue (TPtr elem) f rawValue =
            (VPtr (Some (setKind elem (zero elem) rawValue).1),
             (setKind elem (zero elem) rawValue).2)).
  { intros f. cbn. by destruct (setKind elem (zero elem) rawValue). }
  split_and!.
  - apply Hrun.
  - intros field'. by rewrite !Hrun.
  - intros e. rewrite Hrun. cbn. intros He. split; [by eexists|].
    intros Helem. by rewrite (setKind_error_keeps _ _ _ e).
Qed.

End Fields.

Lemma setFieldValue_slice_witness :
  let R := Demo.runtime [("B", "z")] in
  let O := Demo.listed in
  Getenv "A" [] = "" ∧ Getenv "B" [] = "z"
  ∧ setFieldValue (TSlice TString) (VSlice None)
        (RSeq [RString "${A:x}"; RString "${B:y}"])
      = (VSlice (Some [VStr "x"; VStr "z"]), None).
Proof.
  intros R O. split_and!; [done..|].
  by apply (setFieldValue_slice TString (VSlice None)).
Defined.

Lemma collections_assigned_last_witness :
  let R := Demo.runtime [] in
  let O := Demo.listed in
  let rawMap := [("primary", RString "${DB_PORT:5432}");
                 ("replica", RString "${DB_REPLICA_PORT:none}")] in
  let old := VMap (Some {["primary" := VInt 1]}) in
  ("replica", RString "${DB_REPLICA_PORT:none}") ∈ rangeOrder rawMap
  ∧ (setFieldValue (TInt KInt) (zero (TInt KInt))
       (RString "${DB_REPLICA_PORT:none}")).2 ≠ None
  ∧ ∃ e, setFieldValue (TMap (TInt KInt)) old (RMap rawMap) = (old, Some e).
Proof.
  intros R O rawMap old.
  assert (Hin : ("replica", RString "${DB_REPLICA_PORT:none}")
                ∈ rangeOrder rawMap) by (right; left).
  assert (Hr : (setFieldValue (TInt KInt) (zero (TInt KInt))
                  (RString "${DB_REPLICA_PORT:none}")).2 ≠ None)
    by (vm_compute; discriminate).
  split_and!; [done..|].
  exact (proj1 (proj2 (collections_assigned_last (TInt KInt) old))
           rawMap _ _ Hin Hr).
Defined.

Lemma setFieldValue_pointer_witness :
  let R := Demo.runtime [] in
  let O := Demo.listed in
  let old := VPtr (Some (VInt 7)) in
  (setFieldValue (TPtr (TInt KInt)) old (RString "seven")).2
    = Some "strconv.Atoi: parsing seven: invalid syntax"
  ∧ (∀ fields, TInt KInt ≠ TStruct fields)
  ∧ (setFieldValue (TPtr (TInt KInt)) old (RString "seven")).1
      = VPtr (Some (VInt 0)).
Proof.
  intros R O old.
  assert (He : (setFieldValue (TPtr (TInt KInt)) old (RString "seven")).2
               = Some "strconv.Atoi: parsing seven: invalid syntax")
    by reflexivity.
  split_and!; [done..|].
  by apply (proj2 (proj2 (setFieldValue_pointer (TInt KInt) old
                            (RString "seven"))) _ He).
Defined.

(** ** Two calls of [populateFields] *)

(** Induction on a type, with the property for the types of the fields of
    a struct. *)
Lemma GoType_fields_ind (P : GoType → Prop) :
  (∀ k, P (TInt k)) → P TInt64 → P TDuration → (∀ k, P (TFloat k)) →
  P TString → P TBool → P TBytes →
  (∀ elem, P elem → P (TSlice elem)) →
  (∀ elem, P elem → P (TMap elem)) →
  P TTime →
  (∀ fields, Forall (λ f, P (Type_ f)) fields → P (TStruct fields)) →
  P TInterface →
  (∀ elem, P elem → P (TPtr elem)) →
  (∀ kind zeroText, P (TOther kind zeroText)) →
  ∀ ty, P ty.
Proof.
  intros Hint Hint64 Hdur Hfloat Hstr Hbool Hbytes Hslice Hmap Htime Hstruct
    Hiface Hptr Hother.
  fix IH 1. intros [k| | |k| | | |elem|elem| |fields| |elem|kind zeroText].
  - apply Hint.
  - apply Hint64.
  - apply Hdur.
  - apply Hfloat.
  - apply Hstr.
  - apply Hbool.
  - apply Hbytes.
  - apply Hslice, IH.
  - apply Hmap, IH.
  - apply Htime.
  - apply Hstruct. induction fields as [|[name tag ty] fields IHfields].
    + constructor.
    + constructor; [apply IH|apply IHfields].
  - apply Hiface.
  - apply Hptr, IH.
  - apply Hother.
Qed.

Section Again.

Context {R : Runtime} {O : MapOrder}.


Lemma populateLoop_settled (set : GoType → value → any → outcome value)
    fields vals (rawMap : list (string * any)) :
  Forall (λ f, Settled (set (Type_ f))) fields →
  populateLoop set fields (populateLoop set fields vals rawMap).1 rawMap
    = populateLoop set fields vals rawMap.
Proof.
  intros Hall. revert vals.
  induction Hall as [|f fields Hf Hall IH]; intros [|val vals]; try done.
  rewrite (populateLoop_cons set f fields val vals).
  unfold fieldTurn.
  destruct (lookupRaw rawMap (fieldKey f)) as [rawValue|] eqn:Hkey.
  - specialize (Hf val rawValue).
    destruct (set (Type_ f) val rawValue) as [val' [e|]] eqn:Hset;
      cbn [fst] in Hf.
    + cbn [fst]. rewrite populateLoop_cons. unfold fieldTurn.
      by rewrite Hkey, Hf.
    + specialize (IH vals).
      destruct (populateLoop set fields vals rawMap) as [vals' err].
      cbn [fst] in IH |- *. rewrite populateLoop_cons. unfold fieldTurn.
      by rewrite Hkey, Hf, IH.
  - specialize (IH vals).
    destruct (populateLoop set fields vals rawMap) as [vals' err].
    cbn [fst] in IH |- *. rewrite populateLoop_cons. unfold fieldTurn.
    by rewrite Hkey, IH.
Qed.

Lemma throughPtr_settled (ty : GoType) :
  Settled (setKind ty) → Settled (throughPtr setKind ty).
Proof.
  intros Hty field rawValue. destruct ty; try apply Hty.
  cbn. by destruct (setKind ty (zero ty) rawValue).
Qed.

Lemma setKind_settled (ty : GoType) : Settled (setKind ty).
Proof.
  induction ty as [k| | |k| | | |elem IH|elem IH| |fields IH| |elem IH|kind zeroText]
    using GoType_fields_ind; intros field rawValue; cbn.
  - by destruct (getEnvValueInt rawValue) eqn:E; cbn; rewrite ?E.
  - by destruct (getEnvValueInt64 rawValue) eqn:E; cbn; rewrite ?E.
  - by destruct (getEnvValueDuration rawValue) eqn:E; cbn; rewrite ?E.
  - by destruct (getEnvValueFloat rawValue) eqn:E; cbn; rewrite ?E.
  - done.
  - by destruct (getEnvValueBool rawValue) eqn:E; cbn; rewrite ?E.
  - destruct rawValue; try done;
      by (destruct (json_Marshal _) eqn:E; cbn; rewrite ?E).
  - destruct rawValue; try done.
    by destruct (sliceLoop _ l) eqn:E; cbn; rewrite ?E.
  - destruct rawValue; try done.
    by destruct (mapLoop _ _ _) eqn:E; cbn; rewrite ?E.
  - by destruct (getEnvValueTime rawValue) eqn:E; cbn; rewrite ?E.
  - destruct rawValue as [| | | | | | |rawMap]; try done.
    destruct field as [| | | | | | | |vals| | |]; try done.
    assert (Hall : Forall (λ f, Settled (throughPtr setKind (Type_ f))) fields).
    { eapply Forall_impl; [exact IH|]. intros f. apply throughPtr_settled. }
    pose proof (populateLoop_settled (throughPtr setKind) fields vals rawMap Hall)
      as Hloop.
    destruct (populateLoop (throughPtr setKind) fields vals rawMap)
      as [vals' err].
    cbn [fst] in Hloop |- *. by rewrite Hloop.
  - by destruct rawValue.
  - done.
  - done.
Qed.

(** A second call on the record the first call left gives the same record
    and the same error. *)
Lemma populateFields_settled fields vals (rawMap : list (string * any)) :
  populateFields fields (populateFields fields vals rawMap).1 rawMap
    = populateFields fields vals rawMap.
Proof.
  apply populateLoop_settled, Forall_forall. intros f _.
  apply throughPtr_settled, setKind_settled.
Qed.

End Again.

(** ** The order of [range] *)



Lemma sameResult_refl {A} (r : result A) : sameResult r r.
Proof. by destruct r. Qed.

Lemma sameResult_trans {A} (r1 r2 r3 : result A) :
  sameResult r1 r2 → sameResult r2 r3 → sameResult r1 r3.
Proof. destruct r1, r2, r3; cbn; naive_solver. Qed.

Lemma uniqueKeys_seq {F T} (l : list (Raw F T)) r :
  uniqueKeys (RSeq l) = true → r ∈ l → uniqueKeys r = true.
Proof.
  cbn. intros Hl Hr. rewrite forallb_forall in Hl.
  by apply Hl, list_elem_of_In.
Qed.

Lemma uniqueKeys_map {F T} (m : list (string * Raw F T)) :
  uniqueKeys (RMap m) = true →
  NoDup m.*1 ∧ ∀ k r, (k, r) ∈ m → uniqueKeys r = true.
Proof.
  cbn. intros [Hnd Hm]%andb_true_iff. split.
  - by apply bool_decide_eq_true in Hnd.
  - intros k r Hin. rewrite forallb_forall in Hm.
    by apply (Hm (k, r)), list_elem_of_In.
Qed.

Lemma lookupRaw_elem_of {F T} (m : list (string * Raw F T)) key r :
  lookupRaw m key = Some r → (key, r) ∈ m.
Proof.
  induction m as [|[k v] m IH]; cbn; [done|].
  destruct (String.eqb_spec k key) as [->|Hne].
  - intros [= ->]. left.
  - intros Hm. right. by apply IH.
Qed.

Section Orders.

Context {R : Runtime}.

(** The slice loop with two setters that agree on the elements. *)
Lemma sliceLoop_same (set1 set2 : any → outcome value) (rawSlice : list any) :
  (∀ r, r ∈ rawSlice → sameOutcome (set1 r) (set2 r)) →
  sameResult (sliceLoop set1 rawSlice) (sliceLoop set2 rawSlice).
Proof.
  induction rawSlice as [|r rawSlice IH]; intros Hall; [done|]. cbn.
  destruct (Hall r (list_elem_of_here _ _)) as [Hval Herr].
  destruct (set1 r) as [v1 e1], (set2 r) as [v2 e2]. cbn in Hval, Herr.
  destruct e1 as [e1|], e2 as [e2|];
    [done|discriminate (proj2 Herr eq_refl)|discriminate (proj1 Herr eq_refl)|]. subst v2.
  assert (Hrest : sameResult (sliceLoop set1 rawSlice) (sliceLoop set2 rawSlice)).
  { apply IH. intros r' Hr'. apply Hall. by right. }
  destruct (sliceLoop set1 rawSlice), (sliceLoop set2 rawSlice);
    cbn in Hrest |- *; by simplify_eq.
Qed.

(** The map loop with two setters that agree on the entries. *)
Lemma mapLoop_same (set1 set2 : any → outcome value)
    (entries : list (string * any)) (newMap : gmap string value) :
  (∀ k r, (k, r) ∈ entries → sameOutcome (set1 r) (set2 r)) →
  sameResult (mapLoop set1 entries newMap) (mapLoop set2 entries newMap).
Proof.
  revert newMap.
  induction entries as [|[k r] entries IH]; intros newMap Hall; [done|]. cbn.
  destruct (Hall k r (list_elem_of_here _ _)) as [Hval Herr].
  destruct (set1 r) as [v1 e1], (set2 r) as [v2 e2]. cbn in Hval, Herr.
  destruct e1 as [e1|], e2 as [e2|];
    [done|discriminate (proj2 Herr eq_refl)|discriminate (proj1 Herr eq_refl)|]. subst v2.
  apply IH. intros k' r' Hr'. apply (Hall k'). by right.
Qed.

(** The map loop over the same entries in another order. *)
Lemma mapLoop_permutation (set : any → outcome value)
    (entries1 entries2 : list (string * any)) (newMap : gmap string value) :
  NoDup entries1.*1 →
  entries1 ≡ₚ entries2 →
  sameResult (mapLoop set entries1 newMap) (mapLoop set entries2 newMap).
Proof.
  intros Hnd Hperm. revert newMap.
  induction Hperm as [|[k r] l1 l2 Hperm IH|[k1 r1] [k2 r2] l|l1 l2 l3 H12 IH12 H23 IH23];
    intros newMap.
  - done.
  - cbn. destruct (set r) as [v [e|]]; [done|].
    apply IH. by apply NoDup_cons in Hnd as [_ ?].
  - cbn. destruct (set r1) as [v1 [e1|]], (set r2) as [v2 [e2|]]; try done.
    rewrite insert_insert_ne; [apply sameResult_refl|].
    apply NoDup_cons in Hnd as [Hk _]. cbn in Hk. set_solver.
  - eapply sameResult_trans; [by apply IH12|].
    apply IH23. by rewrite <- H12.
Qed.

(** The loop over the fields with two setters that agree on the fields
    and the values under their keys. *)
Lemma populateLoop_same (set1 set2 : GoType → value → any → outcome value)
    fields vals (rawMap : list (string * any)) :
  Forall (λ f, ∀ val r, (fieldKey f, r) ∈ rawMap →
                 sameOutcome (set1 (Type_ f) val r) (set2 (Type_ f) val r))
         fields →
  sameOutcome (populateLoop set1 fields vals rawMap)
              (populateLoop set2 fields vals rawMap).
Proof.
  intros Hall. revert vals.
  induction Hall as [|f fields Hf Hall IH]; intros [|val vals]; try done.
  rewrite !populateLoop_cons. unfold fieldTurn.
  specialize (IH vals). destruct IH as [IHval IHerr].
  destruct (lookupRaw rawMap (fieldKey f)) as [r|] eqn:Hkey.
  - destruct (Hf val r (lookupRaw_elem_of _ _ _ Hkey)) as [Hval Herr].
    destruct (set1 (Type_ f) val r) as [v1 e1],
             (set2 (Type_ f) val r) as [v2 e2].
    cbn in Hval, Herr. subst v2.
    destruct e1 as [e1|], e2 as [e2|];
      [done|discriminate (proj2 Herr eq_refl)|discriminate (proj1 Herr eq_refl)|].
    destruct (populateLoop set1 fields vals rawMap),
             (populateLoop set2 fields vals rawMap).
    cbn in IHval |- *. by subst.
  - destruct (populateLoop set1 fields vals rawMap),
             (populateLoop set2 fields vals rawMap).
    cbn in IHval |- *. by subst.
Qed.

End Orders.

Section TwoOrders.

Context {R : Runtime}.

Variables O1 O2 : MapOrder.

Hypothesis visits1 : RangeVisitsAll O1.
Hypothesis visits2 : RangeVisitsAll O2.

Lemma sameOutcome_refl {A} (o : outcome A) : sameOutcome o o.
Proof. done. Qed.

(** The two [range] orders visit the same entries. *)
Lemma rangeOrder_same (m : list (string * any)) :
  rangeOrder (MapOrder := O1) m ≡ₚ rangeOrder (MapOrder := O2) m.
Proof. by rewrite (visits1 _ _ m), (visits2 _ _ m). Qed.

(** Whatever the order of [range], the switch of [setFieldValue] and
    [setFieldValue] itself leave the same value and return an error or none
    alike. *)
Lemma setKind_same (ty : GoType) (field : value) (r : any) :
  uniqueKeys r = true →
  sameOutcome (setKind (O := O1) ty field r) (setKind (O := O2) ty field r)
  ∧ sameOutcome (setFieldValue (O := O1) ty field r)
                (setFieldValue (O := O2) ty field r).
Proof.
  revert field r.
  induction ty as [k| | |k| | | |elem IH|elem IH| |fields IH| |elem IH|kind zeroText]
    using GoType_fields_ind; intros field r Hr;
    try (split; apply sameOutcome_refl).
  - (* slice *)
    assert (sameOutcome (setKind (O := O1) (TSlice elem) field r)
                        (setKind (O := O2) (TSlice elem) field r)) as Hkind;
      [|by split].
    destruct r as [| | | | | |l|]; try apply sameOutcome_refl. cbn.
    pose proof (sliceLoop_same
                  (throughPtr (setKind (O := O1)) elem (zero elem))
                  (throughPtr (setKind (O := O2)) elem (zero elem)) l) as Hloop.
    destruct (sliceLoop _ l) as [s1|e1], (sliceLoop _ l) as [s2|e2];
      cbn in Hloop |- *.
    + rewrite Hloop; [done|]. intros r Hin.
      apply IH. by eapply uniqueKeys_seq.
    + destruct Hloop. intros r Hin. apply IH. by eapply uniqueKeys_seq.
    + destruct Hloop. intros r Hin. apply IH. by eapply uniqueKeys_seq.
    + done.
  - (* map *)
    assert (sameOutcome (setKind (O := O1) (TMap elem) field r)
                        (setKind (O := O2) (TMap elem) field r)) as Hkind;
      [|by split].
    destruct r as [| | | | | | |m]; try apply sameOutcome_refl. cbn.
    apply uniqueKeys_map in Hr as [Hnd Hm].
    assert (Hloop : sameResult
              (mapLoop (throughPtr (setKind (O := O1)) elem (zero elem))
                 (rangeOrder (MapOrder := O1) m) ∅)
              (mapLoop (throughPtr (setKind (O := O2)) elem (zero elem))
                 (rangeOrder (MapOrder := O2) m) ∅)).
    { eapply sameResult_trans.
      - apply mapLoop_permutation; [|apply rangeOrder_same].
        by rewrite (visits1 _ _ m).
      - apply mapLoop_same. intros k r Hin. apply IH.
        apply (Hm k). by rewrite <- (visits2 _ _ m). }
    destruct (mapLoop _ _ _) as [m1|e1], (mapLoop _ _ _) as [m2|e2];
      cbn in Hloop |- *; by subst.
  - (* struct *)
    assert (sameOutcome (setKind (O := O1) (TStruct fields) field r)
                        (setKind (O := O2) (TStruct fields) field r)) as Hkind;
      [|by split].
    destruct r as [| | | | | | |m]; try apply sameOutcome_refl. cbn.
    destruct field as [| | | | | | | |vals| | |]; try apply sameOutcome_refl.
    apply uniqueKeys_map in Hr as [Hnd Hm].
    pose proof (populateLoop_same (throughPtr (setKind (O := O1)))
                  (throughPtr (setKind (O := O2))) fields vals m) as Hloop.
    destruct (populateLoop _ fields vals m) as [vals1 err1],
             (populateLoop _ fields vals m) as [vals2 err2].
    destruct Hloop as [Hvals Herr].
    + eapply Forall_impl; [exact IH|]. intros f Hf val r Hin.
      apply Hf. by apply (Hm (fieldKey f)).
    + cbn in Hvals |- *. by subst.
  - (* pointer *)
    split; [apply sameOutcome_refl|]. cbn.
    destruct (IH (zero elem) r Hr) as [[Hval Herr] _].
    destruct (setKind elem (zero elem) r), (setKind elem (zero elem) r).
    cbn in Hval |- *. by subst.
Qed.

(** Two calls of [populateFields], each with its order of [range], leave
    the same record and return an error or none alike. *)
Lemma populateFields_same fields vals (rawMap : list (string * any)) :
  uniqueKeys (RMap rawMap) = true →
  sameOutcome (populateFields (O := O1) fields vals rawMap)
              (populateFields (O := O2) fields vals rawMap).
Proof.
  intros [Hnd Hm]%uniqueKeys_map. apply populateLoop_same, Forall_forall.
  intros f _ val r Hin. apply setKind_same. by apply (Hm (fieldKey f)).
Qed.

(** C8.  Let a call of [populateFields] on a document with one entry per
    key in each map be followed by a second call with the same document
    and environment, the [range] loops of each call visiting the entries
    in an order of their own.  The second call, on the record the first
    one left or on a record equal to the one the first one started from,
    leaves the record the first one left, and returns an error exactly
    when the first one did; with the same order of [range] it returns the
    same error. *)
Theorem populateFields_twice fields vals (rawMap : list (string * any)) :
  uniqueKeys (RMap rawMap) = true →
  let first := populateFields (O := O1) fields vals rawMap in
  let again := populateFields (O := O2) fields first.1 rawMap in
  again.1 = first.1
  ∧ (again.2 = None ↔ first.2 = None)
  ∧ (populateFields (O := O2) fields vals rawMap).1 = first.1
  ∧ populateFields (O := O1) fields first.1 rawMap = first.
Proof.
  intros Hdoc first again.
  pose proof (populateFields_settled (O := O1) fields vals rawMap) as Hsettled.
  destruct (populateFields_same fields first.1 rawMap Hdoc) as [Hval Herr].
  fold again in Hval, Herr. fold first in Hsettled.
  rewrite Hsettled in Hval, Herr.
  split_and!.
  - by symmetry.
  - by symmetry.
  - symmetry. apply (populateFields_same fields vals rawMap Hdoc).
  - done.
Qed.

End TwoOrders.

Lemma populateFields_twice_witness :
  let R := Demo.runtime [("DB_PORT", "1234")] in
  let fields :=
    [mkField "Hosts" [("json", "hosts")] (TSlice TString);
     mkField "Ports" [("json", "ports")] (TMap (TInt KInt))] in
  let rawMap :=
    [("hosts", RSeq [RString "${DB_HOST:localhost}"]);
     ("ports", RMap [("primary", RString "${DB_PORT:5432}");
                     ("replica", RString "${DB_REPLICA_PORT:5433}")])] in
  let first :=
    populateFields (O := Demo.listed) fields [VSlice None; VMap None] rawMap in
  RangeVisitsAll Demo.listed ∧ RangeVisitsAll Demo.backwards
  ∧ uniqueKeys (RMap rawMap) = true
  ∧ first.1 = [VSlice (Some [VStr "localhost"]);
               VMap (Some {["primary" := VInt 1234; "replica" := VInt 5433]})]
  ∧ (populateFields (O := Demo.backwards) fields first.1 rawMap).1 = first.1.
Proof.
  intros R fields rawMap first.
  assert (H1 : RangeVisitsAll Demo.listed) by (by intros F T m).
  assert (H2 : RangeVisitsAll Demo.backwards)
    by (intros F T m; apply reverse_Permutation).
  assert (Hdoc : uniqueKeys (RMap rawMap) = true) by (vm_compute; reflexivity).
  split_and!; [done..|by vm_compute|].
  apply (populateFields_twice Demo.listed Demo.backwards H1 H2
           fields [VSlice None; VMap None] rawMap Hdoc).
Defined.

(** ** The test of the repository *)

(** [TestUnmarshalJSON], with a whole rate since the floats of [Demo] are
    the integers. *)
Example TestUnmarshalJSON :
  let R := Demo.runtime
             [("SERVICE_NAME", "MyTestService"); ("ENABLE_SERVICE", "false");
              ("TIMEOUT", "15s"); ("START_TIME", "2024-02-01T15:00:00Z");
              ("RATE", "2"); ("DB_HOST", "db.example.com");
              ("DB_PORT", "1234"); ("DB_REPLICA_PORT", "5678")] in
  let O := Demo.listed in
  populateFields tConfig ((λ f, zero (Type_ f)) <$> tConfig)
    [("service",
      RMap [("name", RString "${SERVICE_NAME:MyService}");
            ("enabled", RString "${ENABLE_SERVICE:true}");
            ("timeout", RString "${TIMEOUT:30s}");
            ("start_time", RString "${START_TIME}");
            ("rate", RString "${RATE:1}")]);
     ("database",
      RMap [("hosts", RSeq [RString "${DB_HOST:localhost}"]);
            ("ports", RMap [("primary", RString "${DB_PORT:5432}");
                            ("replica", RString "${DB_REPLICA_PORT:5433}")])])]
  = ([VStruct [VStr "MyTestService"; VBool false; VFloat KFloat64 2;
               VInt 15000000000; VTime 1706799600];
      VStruct [VSlice (Some [VStr "db.example.com"]);
               VMap (Some {["primary" := VInt 1234; "replica" := VInt 5678]})]],
     None).
Proof. by vm_compute. Qed.

(** ** Further properties of the resolver *)

Lemma RemoveAll_absent (s : string) (c : ascii) :
  ¬ hasByte c (strings.RemoveAll s c).
Proof.
  unfold hasByte. induction s as [|a s IH]; cbn; [tauto|].
  destruct (Ascii.eqb_spec a c) as [->|Hne]; [done|].
  cbn. intros [Ha|Hin]; [done|by apply IH].
Qed.

(** The decimal text of an integer starts with a digit or a minus sign. *)
Lemma string_of_int_not_placeholder (z : Z) :
  strings.HasPrefix (NilZero.string_of_int (Z.to_int z)) "${" = false.
Proof.
  unfold strings.HasPrefix.
  destruct z as [|p|p]; cbn; [done| |done].
  unfold NilZero.string_of_uint. by destruct (Pos.to_uint p).
Qed.

Section ResolverMore.

Context {R : Runtime}.

Lemma getEnv_not_placeholder (rawValue : any) :
  strings.HasPrefix (Sprintf_v rawValue) "${" = false →
  getEnv rawValue = Sprintf_v rawValue.
Proof. intros Hv. unfold getEnv. by rewrite Hv. Qed.

(** X1.  What [getEnv] returns for a placeholder holds no single quote,
    whether it comes from the environment or from the default; a text that
    is not between ["${"] and ["}"] is returned as it is, quotes
    included. *)
Theorem getEnv_quotes (rawValue : any) :
  (∀ body, Sprintf_v rawValue = "${" +:+ body +:+ "}" →
     ¬ hasByte "'" (getEnv rawValue))
  ∧ (strings.HasPrefix (Sprintf_v rawValue) "${"
       && strings.HasSuffix (Sprintf_v rawValue) "}" = false →
     getEnv rawValue = Sprintf_v rawValue).
Proof.
  split.
  - intros body Hv. rewrite (getEnv_on_placeholder _ _ Hv).
    apply RemoveAll_absent.
  - intros Hv. unfold getEnv. by rewrite Hv.
Qed.

(** X2.  Only a string, or the text the runtime gives a float or a time,
    can be a placeholder: for [nil], a boolean, an integer, a sequence or a
    map [getEnv] returns the [%v] text, and so a string field given [nil]
    holds the text ["<nil>"]. *)
Theorem getEnv_other_than_text (rawValue : any) :
  (∀ s, rawValue ≠ RString s) → (∀ f, rawValue ≠ RFloat f) →
  (∀ t, rawValue ≠ RTime t) →
  getEnv rawValue = Sprintf_v rawValue
  ∧ (rawValue = RNull → getEnv rawValue = "<nil>").
Proof.
  intros Hs Hf Ht. split; [|by intros ->].
  apply getEnv_not_placeholder.
  destruct rawValue as [|[]|z|f|s|t|l|m]; try done.
  - apply string_of_int_not_placeholder.
  - by destruct (Hf f).
  - by destruct (Hs s).
  - by destruct (Ht t).
Qed.

(** X3.  With the lookup [getenv] that [init] installs, a placeholder
    [name:default] resolves to the value of [name] in the process
    environment when that is not empty and to the default of the
    placeholder otherwise: the default argument of [getenv] is not
    used. *)
Theorem getEnv_default_lookup (os_Getenv : string → string)
    (rawValue : any) (body name dflt : string) :
  (∀ v, Getenv v [] = getenv os_Getenv v []) →
  Sprintf_v rawValue = "${" +:+ body +:+ "}" →
  strings.TrimSpace body = name +:+ ":" +:+ dflt →
  ¬ hasByte ":" name →
  getEnv rawValue =
    strings.RemoveAll (if String.eqb (os_Getenv name) "" then dflt
                       else os_Getenv name) "'"%char.
Proof.
  intros Hinit Hv Hbody Hname. rewrite (getEnv_on_placeholder _ _ Hv), Hbody.
  unfold strings.SplitN2.
  rewrite append_cons, append_empty, (Cut_first _ _ _ Hname). cbn.
  rewrite Hinit, getenv_no_default.
  by destruct (String.eqb_spec (os_Getenv name) "").
Qed.

End ResolverMore.

Lemma getEnv_quotes_witness :
  let R := Demo.runtime [] in
  Sprintf_v (RString "${MOTTO:'it''s'}") = "${" +:+ "MOTTO:'it''s'" +:+ "}"
  ∧ ¬ hasByte "'" (getEnv (RString "${MOTTO:'it''s'}")).
Proof.
  intros R. split; [done|].
  by apply (proj1 (getEnv_quotes (RString "${MOTTO:'it''s'}"))
              "MOTTO:'it''s'").
Defined.

Lemma getEnv_other_than_text_witness :
  let R := Demo.runtime [] in
  getEnv (RInt 8080) = "8080" ∧ getEnv (RBool true) = "true".
Proof.
  intros R. split.
  - by apply (getEnv_other_than_text (RInt 8080)).
  - by apply (getEnv_other_than_text (RBool true)).
Defined.

Lemma getEnv_default_lookup_witness :
  let env := [("DB_HOST", "db.example.com")] in
  let os_Getenv := λ v, default "" (Demo.assoc env v) in
  let R := Demo.runtime env in
  (∀ v, Getenv v [] = getenv os_Getenv v [])
  ∧ getEnv (RString "${DB_HOST:localhost}") = "db.example.com"
  ∧ getEnv (RString "${DB_PORT:5432}") = "5432".
Proof.
  intros env os_Getenv R.
  assert (Hinit : ∀ v, Getenv v [] = getenv os_Getenv v [])
    by (intros v; by rewrite getenv_no_default).
  assert (Hname : ∀ name, name = "DB_HOST" ∨ name = "DB_PORT" →
                          ¬ hasByte ":" name).
  { intros name [->| ->]; vm_compute; intros H;
      repeat (destruct H as [H|H]; [discriminate H|]); destruct H. }
  split_and!; [done| |].
  - by rewrite (getEnv_default_lookup os_Getenv (RString "${DB_HOST:localhost}")
                  "DB_HOST:localhost" "DB_HOST" "localhost" Hinit eq_refl
                  eq_refl (Hname _ (or_introl eq_refl))).
  - by rewrite (getEnv_default_lookup os_Getenv (RString "${DB_PORT:5432}")
                  "DB_PORT:5432" "DB_PORT" "5432" Hinit eq_refl
                  eq_refl (Hname _ (or_intror eq_refl))).
Defined.

(** ** Further properties of [setFieldValue] *)

Lemma wrapInt_range (bits x : Z) :
  0 < bits → - 2 ^ (bits - 1) ≤ wrapInt bits x < 2 ^ (bits - 1).
Proof.
  intros Hbits. unfold wrapInt.
  assert (Hpow : 2 ^ bits = 2 * 2 ^ (bits - 1)).
  { rewrite <- Z.pow_succ_r by lia. f_equal. lia. }
  assert (0 < 2 ^ (bits - 1)) by (apply Z.pow_pos_nonneg; lia).
  pose proof (Z.mod_pos_bound (x + 2 ^ (bits - 1)) (2 ^ bits)). lia.
Qed.

Lemma wrapInt_congruent (bits x : Z) :
  ∃ q, wrapInt bits x = x + q * 2 ^ bits.
Proof.
  exists (- ((x + 2 ^ (bits - 1)) / 2 ^ bits)). unfold wrapInt.
  pose proof (Z_div_mod_eq_full (x + 2 ^ (bits - 1)) (2 ^ bits)). lia.
Qed.

Lemma wrapInt_fits (bits x : Z) :
  0 < bits → - 2 ^ (bits - 1) ≤ x < 2 ^ (bits - 1) → wrapInt bits x = x.
Proof.
  intros Hbits Hx. unfold wrapInt.
  assert (Hpow : 2 ^ bits = 2 * 2 ^ (bits - 1)).
  { rewrite <- Z.pow_succ_r by lia. f_equal. lia. }
  rewrite Z.mod_small; lia.
Qed.

Lemma bitsOf_pos (k : IntKind) : 0 < bitsOf k.
Proof. by destruct k. Qed.

Section FieldsMore.

Context {R : Runtime} {O : MapOrder}.

(** X4.  An integer field takes whatever [strconv.Atoi] read, without a
    test of its range: the field holds the number when it fits the kind of
    the field, and otherwise the number of the kind that differs from it by
    a multiple of two to the width (["300"] in an [int8] gives 44); no
    error is returned. *)
Theorem setFieldValue_int_wraps (k : IntKind) (field : value)
    (rawValue : any) (val : Z) :
  getEnvValueInt rawValue = Ok val →
  ∃ z,
    setFieldValue (TInt k) field rawValue = (VInt z, None)
    ∧ - 2 ^ (bitsOf k - 1) ≤ z < 2 ^ (bitsOf k - 1)
    ∧ (∃ q, z = val + q * 2 ^ bitsOf k)
    ∧ (- 2 ^ (bitsOf k - 1) ≤ val < 2 ^ (bitsOf k - 1) → z = val).
Proof.
  intros Hval. exists (wrapInt (bitsOf k) val).
  split; [|split; [|split]].
  - cbn. by rewrite Hval.
  - apply wrapInt_range, bitsOf_pos.
  - apply wrapInt_congruent.
  - apply wrapInt_fits, bitsOf_pos.
Qed.

(** X5.  When [setFieldValue] returns an error for a field that is not a
    struct and not a pointer, the field holds what it held before. *)
Theorem setFieldValue_error_keeps (ty : GoType) (field : value)
    (rawValue : any) (e : error) :
  (∀ fields, ty ≠ TStruct fields) → (∀ elem, ty ≠ TPtr elem) →
  (setFieldValue ty field rawValue).2 = Some e →
  (setFieldValue ty field rawValue).1 = field.
Proof.
  intros Hstruct Hptr. rewrite setFieldValue_not_ptr by done.
  by apply setKind_error_keeps.
Qed.

End FieldsMore.

Lemma setFieldValue_int_wraps_witness :
  let R := Demo.runtime [] in
  let O := Demo.listed in
  getEnvValueInt (RString "${LEVEL:300}") = Ok 300
  ∧ setFieldValue (TInt KInt8) (VInt 0) (RString "${LEVEL:300}")
    = (VInt 44, None)
  ∧ ∃ z, setFieldValue (TInt KInt8) (VInt 0) (RString "${LEVEL:300}")
         = (VInt z, None)
         ∧ -128 ≤ z < 128 ∧ ∃ q, z = 300 + q * 256.
Proof.
  intros R O.
  assert (Hval : getEnvValueInt (RString "${LEVEL:300}") = Ok 300)
    by reflexivity.
  split_and!; [exact Hval|reflexivity|].
  destruct (setFieldValue_int_wraps KInt8 (VInt 0) (RString "${LEVEL:300}")
              300 Hval) as (z & Hrun & Hrange & Hq & _).
  by exists z.
Defined.

Lemma setFieldValue_error_keeps_witness :
  let R := Demo.runtime [] in
  let O := Demo.listed in
  (setFieldValue TBool (VBool true) (RString "${ENABLE_SERVICE:maybe}")).2
    = Some "strconv.ParseBool: parsing maybe: invalid syntax"
  ∧ (setFieldValue TBool (VBool true) (RString "${ENABLE_SERVICE:maybe}")).1
    = VBool true.
Proof.
  intros R O.
  assert (He : (setFieldValue TBool (VBool true)
                  (RString "${ENABLE_SERVICE:maybe}")).2
               = Some "strconv.ParseBool: parsing maybe: invalid syntax")
    by reflexivity.
  split; [exact He|].
  by apply (setFieldValue_error_keeps TBool (VBool true)
              (RString "${ENABLE_SERVICE:maybe}")
              "strconv.ParseBool: parsing maybe: invalid syntax").
Defined.

(** *** The map case *)

Lemma lookupRaw_None {F T} (m : list (string * Raw F T)) key :
  lookupRaw m key = None ↔ key ∉ m.*1.
Proof.
  induction m as [|[k v] m IH]; cbn.
  - split; [intros _; apply not_elem_of_nil|done].
  - rewrite not_elem_of_cons.
    destruct (String.eqb_spec k key) as [->|Hne].
    + split; [done|]. by intros [Hkey _].
    + rewrite IH. split; [intros Hm; split; [by intros ->|done]|].
      by intros [_ Hm].
Qed.

Lemma lookupRaw_Some {F T} (m : list (string * Raw F T)) key r :
  NoDup m.*1 → lookupRaw m key = Some r ↔ (key, r) ∈ m.
Proof.
  induction m as [|[k v] m IH]; cbn; intros Hnd.
  - split; [done|]. by intros ?%elem_of_nil.
  - apply NoDup_cons in Hnd as [Hk Hnd]. rewrite elem_of_cons.
    destruct (String.eqb_spec k key) as [->|Hne].
    + split; [intros [= ->]; by left|].
      intros [[= ->]|Hin]; [done|].
      destruct Hk. apply list_elem_of_fmap. by exists (key, r).
    + rewrite (IH Hnd). split; [by right|].
      by intros [[= -> ->]|Hin].
Qed.

(** A map has the same entry under a key in whatever order its entries
    are listed. *)
Lemma lookupRaw_permutation {F T} (m1 m2 : list (string * Raw F T)) key :
  NoDup m1.*1 → m1 ≡ₚ m2 → lookupRaw m1 key = lookupRaw m2 key.
Proof.
  intros Hnd Hperm.
  assert (Hnd2 : NoDup m2.*1) by by rewrite <- Hperm.
  destruct (lookupRaw m1 key) as [r|] eqn:H1.
  - symmetry. apply (lookupRaw_Some _ _ _ Hnd2). rewrite <- Hperm.
    by apply (lookupRaw_Some _ _ _ Hnd).
  - symmetry. apply lookupRaw_None. rewrite <- Hperm.
    by apply lookupRaw_None.
Qed.

Section MapLoop.

Context {R : Runtime}.

Variable set : any → outcome value.

(** When every entry converts, the map loop gives the map that holds the
    converted value of each entry under its key. *)
Lemma mapLoop_ok (entries : list (string * any)) (newMap : gmap string value) :
  NoDup entries.*1 →
  (∀ k r, (k, r) ∈ entries → (set r).2 = None) →
  ∃ filled,
    mapLoop set entries newMap = Ok filled
    ∧ ∀ key, filled !! key =
        match lookupRaw entries key with
        | Some r => Some (set r).1
        | None => newMap !! key
        end.
Proof.
  revert newMap.
  induction entries as [|[k r] entries IH]; intros newMap Hnd Hall.
  - by exists newMap.
  - apply NoDup_cons in Hnd as [Hk Hnd]. cbn in Hk |- *.
    pose proof (Hall k r (list_elem_of_here _ _)) as Hr.
    destruct (set r) as [elem err] eqn:Hset. cbn in Hr. subst err.
    destruct (IH (<[k:=elem]> newMap) Hnd) as (filled & Hrun & Hfilled).
    { intros k' r' Hin. apply (Hall k'). by right. }
    exists filled. split; [done|]. intros key. rewrite Hfilled.
    cbn [lookupRaw]. destruct (String.eqb_spec k key) as [->|Hne].
    + apply lookupRaw_None in Hk. rewrite Hk, lookup_insert_eq.
      by rewrite ?Hset.
    + destruct (lookupRaw entries key); [done|].
      by rewrite lookup_insert_ne.
Qed.

End MapLoop.

Section SliceLoop.

Context {R : Runtime}.

Variable set : any → outcome value.

(** The slice loop returns the error of the first element that does not
    convert. *)
Lemma sliceLoop_first_error (rawSlice : list any) (i : nat) r e :
  rawSlice !! i = Some r → (set r).2 = Some e →
  (∀ (j : nat) rj, (j < i)%nat → rawSlice !! j = Some rj → (set rj).2 = None) →
  sliceLoop set rawSlice = Err e.
Proof.
  revert i. induction rawSlice as [|r0 rawSlice IH]; intros i Hi He Hbefore;
    [done|].
  cbn. destruct i as [|i]; simplify_eq/=.
  - destruct (set r) as [elem err]. cbn in He. by subst err.
  - pose proof (Hbefore 0%nat r0 (Nat.lt_0_succ i) eq_refl) as Hr0.
    destruct (set r0) as [elem err]. cbn in Hr0. subst err.
    rewrite (IH i Hi He); [done|].
    intros j rj Hj Hrj. apply (Hbefore (S j)); [lia|done].
Qed.

End SliceLoop.

Section CollectionsMore.

Context {R : Runtime} {O : MapOrder}.

(** X6.  For a field of type map of [elem], [setFieldValue] returns an
    error that names the type of the raw value when that is not a map; on a
    map whose values convert it sets the field to a new map with the keys
    of the raw map, the value under each key being the raw value under it
    converted as a field of type [elem], in whatever order [range] visits
    the entries. *)
Theorem setFieldValue_map (elem : GoType) (field : value) :
  RangeVisitsAll O →
  (∀ rawValue : any, (∀ m, rawValue ≠ RMap m) →
     setFieldValue (TMap elem) field rawValue =
       (field, Some ("expected map for field, got " +:+ Sprintf_T rawValue)))
  ∧ (∀ rawMap : list (string * any),
       NoDup rawMap.*1 →
       (∀ k r, (k, r) ∈ rawMap → (setFieldValue elem (zero elem) r).2 = None) →
       ∃ newMap,
         setFieldValue (TMap elem) field (RMap rawMap)
           = (VMap (Some newMap), None)
         ∧ ∀ key, newMap !! key =
             (λ r, (setFieldValue elem (zero elem) r).1) <$> lookupRaw rawMap key).
Proof.
  intros Hvisits. split.
  - intros rawValue Hraw. destruct rawValue; try done. by destruct (Hraw m).
  - intros rawMap Hnd Hall.
    assert (Hnd' : NoDup (rangeOrder rawMap).*1)
      by by rewrite (Hvisits _ _ rawMap).
    destruct (mapLoop_ok (setFieldValue elem (zero elem)) (rangeOrder rawMap)
                ∅ Hnd') as (newMap & Hrun & Hlookup).
    { intros k r Hin. apply (Hall k). by rewrite <- (Hvisits _ _ rawMap). }
    exists newMap. split.
    + cbn. change (throughPtr setKind elem (zero elem))
        with (setFieldValue elem (zero elem)).
      by rewrite Hrun.
    + intros key. rewrite Hlookup.
      rewrite (lookupRaw_permutation _ rawMap key Hnd' (Hvisits _ _ rawMap)).
      by destruct (lookupRaw rawMap key).
Qed.

(** X7.  When an element of the raw sequence does not convert,
    [setFieldValue] returns for the slice field the error of the first such
    element as it is, without the index of the element, and leaves the
    field as it was. *)
Theorem setFieldValue_slice_first_error (elem : GoType) (field : value)
    (rawSlice : list any) (i : nat) r e :
  rawSlice !! i = Some r →
  (setFieldValue elem (zero elem) r).2 = Some e →
  (∀ (j : nat) rj, (j < i)%nat → rawSlice !! j = Some rj →
     (setFieldValue elem (zero elem) rj).2 = None) →
  setFieldValue (TSlice elem) field (RSeq rawSlice) = (field, Some e).
Proof.
  intros Hi He Hbefore. cbn.
  change (throughPtr setKind elem (zero elem))
    with (setFieldValue elem (zero elem)).
  by rewrite (sliceLoop_first_error _ rawSlice i r e).
Qed.

(** X8.  A kind without a case gives an error whatever the raw value.  A
    pointer to a pointer is one: [setFieldValue] follows one pointer, and
    leaves the field pointing to a nil pointer.  A slice of elements of
    such a kind is set, to the empty slice, from an empty sequence alone;
    a sequence with elements gives the error of its first element. *)
Theorem setFieldValue_unsupported (field : value) :
  (∀ kind zeroText (rawValue : any),
     setFieldValue (TOther kind zeroText) field rawValue =
       (field,
        Some ("unsupported field type: " +:+ kind +:+ " " +:+ otherText field
              +:+ " " +:+ Sprintf_v rawValue)))
  ∧ (∀ elem (rawValue : any),
       setFieldValue (TPtr (TPtr elem)) field rawValue =
         (VPtr (Some (VPtr None)),
          Some ("unsupported field type: ptr <nil> " +:+ Sprintf_v rawValue)))
  ∧ (∀ kind zeroText (rawSlice : list any),
       setFieldValue (TSlice (TOther kind zeroText)) field (RSeq rawSlice) =
         match rawSlice with
         | [] => (VSlice (Some []), None)
         | r :: _ =>
             (field,
              Some ("unsupported field type: " +:+ kind +:+ " " +:+ zeroText
                    +:+ " " +:+ Sprintf_v r))
         end).
Proof.
  split_and!; try done.
  by intros kind zeroText [|r rawSlice].
Qed.

End CollectionsMore.

Lemma setFieldValue_map_witness :
  let R := Demo.runtime [("DB_PORT", "1234")] in
  let O := Demo.backwards in
  let rawMap := [("primary", RString "${DB_PORT:5432}");
                 ("replica", RString "${DB_REPLICA_PORT:5433}")] in
  RangeVisitsAll O ∧ NoDup rawMap.*1
  ∧ ∃ newMap,
      setFieldValue (TMap (TInt KInt)) (VMap None) (RMap rawMap)
        = (VMap (Some newMap), None)
      ∧ newMap !! "primary" = Some (VInt 1234)
      ∧ newMap !! "replica" = Some (VInt 5433)
      ∧ newMap !! "standby" = None.
Proof.
  intros R O rawMap.
  assert (Hvisits : RangeVisitsAll O)
    by (intros F T m; apply reverse_Permutation).
  assert (Hnd : NoDup rawMap.*1)
    by (apply (bool_decide_unpack _); vm_compute; exact I).
  split_and!; [done..|].
  destruct (proj2 (setFieldValue_map (TInt KInt) (VMap None) Hvisits)
              rawMap Hnd) as (newMap & Hrun & Hlookup).
  { intros k r Hin. apply elem_of_cons in Hin as [[= -> ->]|Hin]; [done|].
    apply elem_of_cons in Hin as [[= -> ->]|Hin]; [done|].
    by apply elem_of_nil in Hin. }
  exists newMap. split_and!; [done|by rewrite Hlookup..].
Defined.

Lemma setFieldValue_slice_first_error_witness :
  let R := Demo.runtime [] in
  let O := Demo.listed in
  let rawSlice := [RString "${A:1}"; RString "two"; RString "three"] in
  rawSlice !! 1%nat = Some (RString "two")
  ∧ (setFieldValue (TInt KInt) (zero (TInt KInt)) (RString "two")).2
    = Some "strconv.Atoi: parsing two: invalid syntax"
  ∧ setFieldValue (TSlice (TInt KInt)) (VSlice (Some [VInt 7])) (RSeq rawSlice)
    = (VSlice (Some [VInt 7]), Some "strconv.Atoi: parsing two: invalid syntax").
Proof.
  intros R O rawSlice. split_and!; [done..|].
  apply (setFieldValue_slice_first_error (TInt KInt) (VSlice (Some [VInt 7]))
           rawSlice 1%nat (RString "two")); [done..|].
  intros [|j] rj Hj Hrj; [by simplify_eq/=|lia].
Defined.

(** ** Further properties of [populateFields] *)

Section LoopMore.

Context {R : Runtime}.

Variable set : GoType → value → any → outcome value.

(** When no turn fails, the loop sets every field by its own turn. *)
Lemma populateLoop_ok fields vals (rawMap : list (string * any)) :
  length vals = length fields →
  (∀ (i : nat) f v, fields !! i = Some f → vals !! i = Some v →
     (fieldTurn set f v rawMap).2 = None) →
  populateLoop set fields vals rawMap
    = (zip_with (λ f v, (fieldTurn set f v rawMap).1) fields vals, None).
Proof.
  revert vals.
  induction fields as [|f fields IH]; intros [|v vals] Hlen Hall; try done.
  rewrite populateLoop_cons.
  pose proof (Hall 0%nat f v eq_refl eq_refl) as Hturn.
  destruct (fieldTurn set f v rawMap) as [v' err] eqn:Hf. cbn in Hturn.
  subst err. rewrite IH.
  - cbn. by rewrite Hf.
  - by simplify_eq/=.
  - intros i fi vi Hfi Hvi. by apply (Hall (S i)).
Qed.

(** When the loop returns no error, no turn failed. *)
Lemma populateLoop_no_error fields vals (rawMap : list (string * any)) :
  (populateLoop set fields vals rawMap).2 = None →
  ∀ (i : nat) f v, fields !! i = Some f → vals !! i = Some v →
    (fieldTurn set f v rawMap).2 = None.
Proof.
  revert vals.
  induction fields as [|f fields IH]; intros [|v vals] Hrun i fi vi Hfi Hvi;
    try done.
  rewrite populateLoop_cons in Hrun.
  destruct (fieldTurn set f v rawMap) as [v' [e|]] eqn:Hf; [done|].
  destruct i as [|i]; simplify_eq/=; [by rewrite Hf|].
  apply (IH vals) with i; [|done..].
  by destruct (populateLoop set fields vals rawMap).
Qed.

(** The loop reads the document under the keys of the fields alone. *)
Lemma populateLoop_same_keys fields vals (rawMap1 rawMap2 : list (string * any)) :
  (∀ f, f ∈ fields →
     lookupRaw rawMap1 (fieldKey f) = lookupRaw rawMap2 (fieldKey f)) →
  populateLoop set fields vals rawMap1 = populateLoop set fields vals rawMap2.
Proof.
  revert vals.
  induction fields as [|f fields IH]; intros [|v vals] Hkeys; try done.
  rewrite !populateLoop_cons. unfold fieldTurn.
  rewrite (Hkeys f (list_elem_of_here _ _)), IH; [done|].
  intros f' Hf'. apply Hkeys. by right.
Qed.

(** A document without the keys of the fields changes nothing. *)
Lemma populateLoop_no_key fields vals (rawMap : list (string * any)) :
  (∀ f, f ∈ fields → lookupRaw rawMap (fieldKey f) = None) →
  populateLoop set fields vals rawMap = (vals, None).
Proof.
  revert vals.
  induction fields as [|f fields IH]; intros [|v vals] Hkeys; try done.
  rewrite populateLoop_cons. unfold fieldTurn.
  rewrite (Hkeys f (list_elem_of_here _ _)), IH; [done|].
  intros f' Hf'. apply Hkeys. by right.
Qed.

End LoopMore.

Section PopulateMore.

Context {R : Runtime} {O : MapOrder}.

(** X9.  Every error [populateFields] returns is the error of a declared
    field whose key is in the document, under the name of that field: the
    field is the first whose conversion fails, every field before it was
    set without error and holds what it was set to, and no field after it
    was changed. *)
Theorem populateFields_error_origin fields vals (rawMap : list (string * any))
    vals' e :
  populateFields fields vals rawMap = (vals', Some e) →
  ∃ (i : nat) field val e0,
    fields !! i = Some field ∧ vals !! i = Some val
    ∧ is_Some (lookupRaw rawMap (fieldKey field))
    ∧ (fieldTurn setFieldValue field val rawMap).2 = Some e0
    ∧ e = "error setting field '" +:+ Name field +:+ "': " +:+ e0
    ∧ vals' !! i = Some (fieldTurn setFieldValue field val rawMap).1
    ∧ (∀ (j : nat) fj vj, (j < i)%nat →
         fields !! j = Some fj → vals !! j = Some vj →
         (fieldTurn setFieldValue fj vj rawMap).2 = None
         ∧ vals' !! j = Some (fieldTurn setFieldValue fj vj rawMap).1)
    ∧ (∀ j : nat, (i < j)%nat → vals' !! j = vals !! j).
Proof.
  intros Hrun.
  destruct (populateLoop_error _ _ _ _ _ _ Hrun)
    as (i & field & val & e0 & Hf & Hv & He0 & He & Hi & Hbefore & Hafter).
  exists i, field, val, e0.
  split; [exact Hf|]. split; [exact Hv|]. split.
  { unfold fieldTurn in He0.
    by destruct (lookupRaw rawMap (fieldKey field)). }
  split; [exact He0|]. split; [exact He|]. split; [exact Hi|].
  split; [exact Hbefore|exact Hafter].
Qed.

(** X10.  [populateFields] returns no error exactly when the conversion of
    no field fails, and then every field holds the outcome of its own
    conversion, or its former value when its key is not in the document:
    no field depends on another. *)
Theorem populateFields_success fields vals (rawMap : list (string * any)) :
  length vals = length fields →
  ((populateFields fields vals rawMap).2 = None
   ↔ ∀ (i : nat) f v, fields !! i = Some f → vals !! i = Some v →
       (fieldTurn setFieldValue f v rawMap).2 = None)
  ∧ ((populateFields fields vals rawMap).2 = None →
     (populateFields fields vals rawMap).1
       = zip_with (λ f v, (fieldTurn setFieldValue f v rawMap).1) fields vals).
Proof.
  intros Hlen. split; [split|].
  - apply populateLoop_no_error.
  - intros Hall. unfold populateFields. by rewrite populateLoop_ok.
  - intros Hrun. unfold populateFields in *. rewrite populateLoop_ok; [done..|].
    by apply populateLoop_no_error.
Qed.

(** X11.  A document that has none of the keys of the fields, the empty
    document among them, leaves the record as it is and gives no error. *)
Theorem populateFields_no_key fields vals (rawMap : list (string * any)) :
  (∀ f, f ∈ fields → lookupRaw rawMap (fieldKey f) = None) →
  populateFields fields vals rawMap = (vals, None)
  ∧ populateFields fields vals [] = (vals, None).
Proof.
  intros Hkeys. split; by apply populateLoop_no_key.
Qed.

(** X12.  [populateFields] reads the document under the keys of the
    declared fields alone: two documents with the same entries under those
    keys give the same outcome, and an entry under a key of no field is
    passed over without an error. *)
Theorem populateFields_declared_keys fields vals
    (rawMap1 rawMap2 : list (string * any)) :
  (∀ f, f ∈ fields →
     lookupRaw rawMap1 (fieldKey f) = lookupRaw rawMap2 (fieldKey f)) →
  populateFields fields vals rawMap1 = populateFields fields vals rawMap2
  ∧ ∀ key r, (∀ f, f ∈ fields → fieldKey f ≠ key) →
      populateFields fields vals ((key, r) :: rawMap1)
      = populateFields fields vals rawMap2.
Proof.
  intros Hkeys. split; [by apply populateLoop_same_keys|].
  intros key r Hkey. apply populateLoop_same_keys. intros f Hf. cbn.
  destruct (String.eqb_spec key (fieldKey f)) as [->|Hne];
    [by destruct (Hkey f Hf)|by apply Hkeys].
Qed.

End PopulateMore.

Lemma populateFields_error_origin_witness :
  let R := Demo.runtime [] in
  let O := Demo.listed in
  let rawMap := [("name", RString "${NAME:jenv}"); ("hosts", RMap []);
                 ("region", RString "eu")] in
  let vals := [VStr ""; VSlice None; VStr ""] in
  let e := "error setting field 'Hosts': expected slice for field, got map[string]interface {}" in
  populateFields threeFields vals rawMap
    = ([VStr "jenv"; VSlice None; VStr ""], Some e)
  ∧ ∃ (i : nat) field val e0,
      threeFields !! i = Some field ∧ vals !! i = Some val
      ∧ is_Some (lookupRaw rawMap (fieldKey field))
      ∧ e = "error setting field '" +:+ Name field +:+ "': " +:+ e0.
Proof.
  intros R O rawMap vals e.
  assert (Hrun : populateFields threeFields vals rawMap
                 = ([VStr "jenv"; VSlice None; VStr ""], Some e))
    by reflexivity.
  split; [exact Hrun|].
  destruct (populateFields_error_origin _ _ _ _ _ Hrun)
    as (i & field & val & e0 & Hf & Hv & Hkey & _ & He & _).
  by exists i, field, val, e0.
Defined.

Lemma populateFields_success_witness :
  let R := Demo.runtime [("REGION", "eu")] in
  let O := Demo.listed in
  let rawMap := [("region", RString "${REGION:us}");
                 ("hosts", RSeq [RString "${DB_HOST:localhost}"])] in
  let vals := [VStr "kept"; VSlice None; VStr ""] in
  length vals = length threeFields
  ∧ (populateFields threeFields vals rawMap).2 = None
  ∧ (populateFields threeFields vals rawMap).1
    = [VStr "kept"; VSlice (Some [VStr "localhost"]); VStr "eu"].
Proof.
  intros R O rawMap vals.
  assert (Hlen : length vals = length threeFields) by reflexivity.
  assert (Hrun : (populateFields threeFields vals rawMap).2 = None)
    by reflexivity.
  split_and!; [done..|].
  by rewrite (proj2 (populateFields_success threeFields vals rawMap Hlen) Hrun).
Defined.

Lemma populateFields_no_key_witness :
  let R := Demo.runtime [] in
  let O := Demo.listed in
  let rawMap := [("Name", RString "by field name"); ("port", RInt 8080)] in
  let vals := [VStr "kept"; VSlice None; VStr ""] in
  (∀ f, f ∈ threeFields → lookupRaw rawMap (fieldKey f) = None)
  ∧ populateFields threeFields vals rawMap = (vals, None).
Proof.
  intros R O rawMap vals.
  assert (Hkeys : ∀ f, f ∈ threeFields → lookupRaw rawMap (fieldKey f) = None).
  { intros f Hf. repeat (apply elem_of_cons in Hf as [->|Hf]; [done|]).
    by apply elem_of_nil in Hf. }
  split; [exact Hkeys|].
  apply (populateFields_no_key threeFields vals rawMap Hkeys).
Defined.

Lemma populateFields_declared_keys_witness :
  let R := Demo.runtime [] in
  let O := Demo.listed in
  let rawMap := [("name", RString "${NAME:jenv}")] in
  let vals := [VStr ""; VSlice None; VStr ""] in
  (∀ f, f ∈ threeFields → fieldKey f ≠ "debug")
  ∧ populateFields threeFields vals (("debug", RBool true) :: rawMap)
    = ([VStr "jenv"; VSlice None; VStr ""], None).
Proof.
  intros R O rawMap vals.
  assert (Hkey : ∀ f, f ∈ threeFields → fieldKey f ≠ "debug").
  { intros f Hf. repeat (apply elem_of_cons in Hf as [->|Hf]; [done|]).
    by apply elem_of_nil in Hf. }
  split; [exact Hkey|].
  by rewrite (proj2 (populateFields_declared_keys threeFields vals rawMap rawMap
                       (λ _ _, eq_refl)) "debug" (RBool true) Hkey).
Defined.

Section Nested.

Context {R : Runtime} {O : MapOrder}.

(** On a struct field given a map, [setFieldValue] is [populateFields] on
    the fields of the struct. *)
Lemma setFieldValue_struct fields vals (rawMap : list (string * any)) :
  setFieldValue (TStruct fields) (VStruct vals) (RMap rawMap) =
    ((VStruct (populateFields fields vals rawMap).1),
     (populateFields fields vals rawMap).2).
Proof.
  change (populateFields fields vals rawMap)
    with (populateLoop (throughPtr setKind) fields vals rawMap).
  cbn. by destruct (populateLoop (throughPtr setKind) fields vals rawMap).
Qed.

(** X13.  The error of a field of a nested record comes back under the
    names of the fields on the way to it: when [inner] is the first failing
    field of the struct in the field [outer], itself the first failing
    field of the record, [populateFields] returns the error of [inner]
    under the name of [inner] under the name of [outer]. *)
Theorem populateFields_error_path fields vals (rawMap : list (string * any))
    (i : nat) outer innerFields innerVals innerMap (j : nat) inner val e0 :
  fields !! i = Some outer → Type_ outer = TStruct innerFields →
  vals !! i = Some (VStruct innerVals) →
  lookupRaw rawMap (fieldKey outer) = Some (RMap innerMap) →
  (∀ (k : nat) fk vk, (k < i)%nat →
     fields !! k = Some fk → vals !! k = Some vk →
     (fieldTurn setFieldValue fk vk rawMap).2 = None) →
  innerFields !! j = Some inner → innerVals !! j = Some val →
  (fieldTurn setFieldValue inner val innerMap).2 = Some e0 →
  (∀ (k : nat) fk vk, (k < j)%nat →
     innerFields !! k = Some fk → innerVals !! k = Some vk →
     (fieldTurn setFieldValue fk vk innerMap).2 = None) →
  (populateFields fields vals rawMap).2 =
    Some ("error setting field '" +:+ Name outer +:+ "': "
          +:+ "error setting field '" +:+ Name inner +:+ "': " +:+ e0).
Proof.
  intros Houter Hty Hval Hkey Hbefore Hinner Hival He0 Hibefore.
  destruct (populateLoop_first_failure setFieldValue innerFields innerVals
              innerMap j inner val e0 Hinner Hival He0 Hibefore)
    as (innerVals' & Hirun & _).
  assert (Hturn : (fieldTurn setFieldValue outer (VStruct innerVals) rawMap).2
                  = Some (fieldError (Name inner) e0)).
  { unfold fieldTurn. rewrite Hkey, Hty, setFieldValue_struct.
    unfold populateFields. by rewrite Hirun. }
  destruct (populateLoop_first_failure setFieldValue fields vals rawMap i outer
              (VStruct innerVals) _ Houter Hval Hturn Hbefore)
    as (vals' & Hrun & _).
  unfold populateFields. by rewrite Hrun.
Qed.

(** X14.  An error of [UnmarshalJSON] or [UnmarshalYAML] is either that of
    the decoder, under the words [error unmarshalling], and then the record
    is as it was, or that of a declared field, under the words [error
    setting field] and the name of the field. *)
Theorem Unmarshal_errors
    (decode : string → result (list (string * any))) (data : string)
    fields vals vals' e :
  let origin (format : string) :=
    (∃ d, decode data = Err d
          ∧ e = "error unmarshalling " +:+ format +:+ ": " +:+ d
          ∧ vals' = vals)
    ∨ (∃ rawMap field e0, decode data = Ok rawMap ∧ field ∈ fields
          ∧ e = "error setting field '" +:+ Name field +:+ "': " +:+ e0) in
  (UnmarshalJSON decode data fields vals = (vals', Some e) → origin "json")
  ∧ (UnmarshalYAML decode data fields vals = (vals', Some e) → origin "yaml").
Proof.
  intros origin. unfold UnmarshalJSON, UnmarshalYAML, origin.
  split; (destruct (decode data) as [rawMap|d];
    [intros Hrun; right|intros [= <- <-]; left; by exists d]);
    destruct (populateLoop_error _ _ _ _ _ _ Hrun)
      as (i & field & val & e0 & Hf & _ & _ & He & _);
    exists rawMap, field, e0; split_and!; try done;
    by eapply list_elem_of_lookup_2.
Qed.

End Nested.

Lemma populateFields_error_path_witness :
  let R := Demo.runtime [] in
  let O := Demo.listed in
  let innerMap := [("hosts", RString "localhost"); ("ports", RMap [])] in
  let rawMap := [("database", RMap innerMap)] in
  let database := mkField "Database" [("json", "database")] tDatabase in
  let hosts := mkField "Hosts" [("json", "hosts")] (TSlice TString) in
  let vals := (λ f, zero (Type_ f)) <$> tConfig in
  tConfig !! 1%nat = Some database
  ∧ lookupRaw rawMap (fieldKey database) = Some (RMap innerMap)
  ∧ (fieldTurn setFieldValue hosts (VSlice None) innerMap).2
    = Some "expected slice for field, got string"
  ∧ (populateFields tConfig vals rawMap).2
    = Some "error setting field 'Database': error setting field 'Hosts': expected slice for field, got string".
Proof.
  intros R O innerMap rawMap database hosts vals.
  split_and!; [done..|].
  apply (populateFields_error_path tConfig vals rawMap 1%nat database
           [hosts; mkField "Ports" [("json", "ports")] (TMap (TInt KInt))]
           [VSlice None; VMap None] innerMap 0%nat hosts (VSlice None)
           "expected slice for field, got string");
    try reflexivity.
  - intros [|[|k]] fk vk Hk Hfk Hvk; [by simplify_eq/=|lia..].
  - intros k fk vk Hk. lia.
Defined.

Lemma Unmarshal_errors_witness :
  let R := Demo.runtime [] in
  let O := Demo.listed in
  let decode := λ data : string,
    if String.eqb data "{" then Err "unexpected end of JSON input"
    else Ok [("hosts", RBool true)] in
  let vals := [VStr "kept"; VSlice None; VStr ""] in
  UnmarshalJSON decode "{" threeFields vals
    = (vals, Some "error unmarshalling json: unexpected end of JSON input")
  ∧ ((∃ d, decode "{" = Err d
           ∧ "error unmarshalling json: unexpected end of JSON input"
             = "error unmarshalling " +:+ "json" +:+ ": " +:+ d
           ∧ vals = vals)
     ∨ (∃ rawMap field e0, decode "{" = Ok rawMap ∧ field ∈ threeFields
           ∧ "error unmarshalling json: unexpected end of JSON input"
             = "error setting field '" +:+ Name field +:+ "': " +:+ e0)).
Proof.
  intros R O decode vals.
  assert (Hrun : UnmarshalJSON decode "{" threeFields vals
            = (vals, Some "error unmarshalling json: unexpected end of JSON input"))
    by reflexivity.
  split; [exact Hrun|].
  exact (proj1 (Unmarshal_errors decode "{" threeFields vals vals _) Hrun).
Defined.

(** ** The values [populateFields] leaves have the types of the fields *)

Section Typing.

Context {R : Runtime} {O : MapOrder}.

Lemma zero_hasType (ty : GoType) : hasType ty (zero ty).
Proof.
  induction ty as [k| | |k| | | |elem IH|elem IH| |fields IH| |elem IH|kind zeroText]
    using GoType_fields_ind; cbn; try done.
  - pose proof (bitsOf_pos k).
    assert (0 < 2 ^ (bitsOf k - 1)) by (apply Z.pow_pos_nonneg; lia). lia.
  - induction IH as [|f fields Hf _ IHfields]; by cbn.
Qed.

Lemma sliceLoop_Forall (P : value → Prop) (set : any → outcome value)
    (rawSlice : list any) slice :
  (∀ r, P (set r).1) → sliceLoop set rawSlice = Ok slice → Forall P slice.
Proof.
  intros Hset. revert slice.
  induction rawSlice as [|r rawSlice IH]; intros slice; cbn.
  - by intros [= <-].
  - pose proof (Hset r) as Hr. destruct (set r) as [elem [e|]]; [done|].
    destruct (sliceLoop set rawSlice) as [elems|e]; [|done].
    intros [= <-]. constructor; [done|by apply IH].
Qed.

Lemma mapLoop_Forall (P : value → Prop) (set : any → outcome value)
    (entries : list (string * any)) (newMap filled : gmap string value) :
  (∀ r, P (set r).1) → map_Forall (λ _, P) newMap →
  mapLoop set entries newMap = Ok filled → map_Forall (λ _, P) filled.
Proof.
  intros Hset. revert newMap.
  induction entries as [|[k r] entries IH]; intros newMap Hnew; cbn.
  - by intros [= <-].
  - pose proof (Hset r) as Hr. destruct (set r) as [elem [e|]]; [done|].
    apply IH. by apply map_Forall_insert_2.
Qed.

Lemma populateLoop_hasType (has : GoType → value → Prop)
    (set : GoType → value → any → outcome value)
    fields vals (rawMap : list (string * any)) :
  Forall (λ f, ∀ v r, has (Type_ f) v → has (Type_ f) (set (Type_ f) v r).1)
         fields →
  fieldsHaveTypes has fields vals →
  fieldsHaveTypes has fields (populateLoop set fields vals rawMap).1.
Proof.
  intros Hall. revert vals.
  induction Hall as [|f fields Hf Hall IH]; intros [|v vals] Hvals; try done.
  destruct Hvals as [Hv Hvals]. rewrite populateLoop_cons. unfold fieldTurn.
  specialize (IH vals Hvals).
  destruct (lookupRaw rawMap (fieldKey f)) as [r|].
  - specialize (Hf v r Hv).
    destruct (set (Type_ f) v r) as [v' [e|]]; [done|].
    by destruct (populateLoop set fields vals rawMap).
  - by destruct (populateLoop set fields vals rawMap).
Qed.

(** [setFieldValue] and its switch leave in a field a value of the type of
    the field, error or not. *)
Lemma setKind_hasType (ty : GoType) (field : value) (rawValue : any) :
  hasType ty field →
  hasType ty (setKind ty field rawValue).1
  ∧ hasType ty (setFieldValue ty field rawValue).1.
Proof.
  revert field rawValue.
  induction ty as [k| | |k| | | |elem IH|elem IH| |fields IH| |elem IH|kind zeroText]
    using GoType_fields_ind; intros field rawValue Hfield.
  - assert (hasType (TInt k) (setKind (TInt k) field rawValue).1); [|done].
    cbn. destruct (getEnvValueInt rawValue); [|done].
    apply wrapInt_range, bitsOf_pos.
  - assert (hasType TInt64 (setKind TInt64 field rawValue).1); [|done].
    cbn. destruct (getEnvValueInt64 rawValue); [|done].
    by apply (wrapInt_range 64).
  - assert (hasType TDuration (setKind TDuration field rawValue).1); [|done].
    cbn. destruct (getEnvValueDuration rawValue); [|done].
    by apply (wrapInt_range 64).
  - assert (hasType (TFloat k) (setKind (TFloat k) field rawValue).1); [|done].
    cbn. by destruct (getEnvValueFloat rawValue).
  - done.
  - assert (hasType TBool (setKind TBool field rawValue).1); [|done].
    cbn. by destruct (getEnvValueBool rawValue).
  - assert (hasType TBytes (setKind TBytes field rawValue).1); [|done].
    cbn. destruct rawValue; try done; by destruct (json_Marshal _).
  - assert (hasType (TSlice elem) (setKind (TSlice elem) field rawValue).1);
      [|done].
    cbn. destruct rawValue as [| | | | | |l|]; try done.
    destruct (sliceLoop _ l) as [slice|e] eqn:Hloop; [|done]. cbn.
    eapply sliceLoop_Forall; [|exact Hloop].
    intros r. apply IH, zero_hasType.
  - assert (hasType (TMap elem) (setKind (TMap elem) field rawValue).1);
      [|done].
    cbn. destruct rawValue as [| | | | | | |m]; try done.
    destruct (mapLoop _ _ _) as [filled|e] eqn:Hloop; [|done]. cbn.
    eapply mapLoop_Forall; [| |exact Hloop].
    + intros r. apply IH, zero_hasType.
    + apply map_Forall_empty.
  - assert (hasType TTime (setKind TTime field rawValue).1); [|done].
    cbn. by destruct (getEnvValueTime rawValue).
  - assert (hasType (TStruct fields)
              (setKind (TStruct fields) field rawValue).1); [|done].
    cbn. destruct rawValue as [| | | | | | |m]; try done.
    destruct field as [| | | | | | | |vals| | |]; try done.
    pose proof (populateLoop_hasType hasType (throughPtr setKind) fields vals m)
      as Hloop.
    destruct (populateLoop _ fields vals m) as [vals' err]. cbn in Hloop |- *.
    apply Hloop; [|done].
    eapply Forall_impl; [exact IH|]. intros f Hf v r Hv. by apply Hf.
  - assert (hasType TInterface (setKind TInterface field rawValue).1); [|done].
    cbn. by destruct rawValue.
  - split; [done|]. cbn.
    destruct (IH (zero elem) rawValue (zero_hasType elem)) as [Hkind _].
    by destruct (setKind elem (zero elem) rawValue).
  - done.
Qed.

(** X15.  [setFieldValue] leaves in a field a value of the type of the
    field, and [populateFields] in a record a value of its type for every
    field, whether or not an error is returned: an integer within the
    range of its kind, slices and maps of values of the element type,
    structs with all their fields. *)
Theorem populate_keeps_types :
  (∀ ty field (rawValue : any),
     hasType ty field → hasType ty (setFieldValue ty field rawValue).1)
  ∧ (∀ fields vals (rawMap : list (string * any)),
       fieldsHaveTypes hasType fields vals →
       fieldsHaveTypes hasType fields (populateFields fields vals rawMap).1
       ∧ length (populateFields fields vals rawMap).1 = length fields)
  ∧ (∀ fields (rawMap : list (string * any)),
       fieldsHaveTypes hasType fields
         (populateFields fields ((λ f, zero (Type_ f)) <$> fields) rawMap).1).
Proof.
  assert (Hpop : ∀ fields vals (rawMap : list (string * any)),
            fieldsHaveTypes hasType fields vals →
            fieldsHaveTypes hasType fields (populateFields fields vals rawMap).1).
  { intros fields vals rawMap. apply populateLoop_hasType, Forall_forall.
    intros f _ v r Hv. by apply setKind_hasType. }
  assert (Hlen : ∀ fields vals, fieldsHaveTypes hasType fields vals →
                   length vals = length fields).
  { induction fields as [|f fields IH]; intros [|v vals]; cbn; try done.
    intros [_ Hvals]. f_equal. by apply IH. }
  split_and!.
  - intros ty field rawValue. apply setKind_hasType.
  - intros fields vals rawMap Hvals. split; [by apply Hpop|].
    by apply Hlen, Hpop.
  - intros fields rawMap. apply Hpop.
    induction fields as [|f fields IH]; cbn; [done|].
    split; [apply zero_hasType|apply IH].
Qed.

End Typing.

Lemma populate_keeps_types_witness :
  let R := Demo.runtime [] in
  let O := Demo.listed in
  let fields := [mkField "Level" [("json", "level")] (TInt KInt8);
                 mkField "Ports" [("json", "ports")] (TSlice (TInt KInt16))] in
  let rawMap := [("level", RString "${LEVEL:300}");
                 ("ports", RSeq [RInt 80; RInt 70000])] in
  fieldsHaveTypes hasType fields [VInt 0; VSlice None]
  ∧ (populateFields fields [VInt 0; VSlice None] rawMap).1
    = [VInt 44; VSlice (Some [VInt 80; VInt 4464])]
  ∧ fieldsHaveTypes hasType fields
      (populateFields fields [VInt 0; VSlice None] rawMap).1.
Proof.
  intros R O fields rawMap.
  assert (Hvals : fieldsHaveTypes hasType fields [VInt 0; VSlice None])
    by (cbn; lia).
  split_and!; [exact Hvals|reflexivity|].
  apply (proj1 (proj2 populate_keeps_types) fields [VInt 0; VSlice None] rawMap
           Hvals).
Defined.

(** ** Documents without placeholders *)

Section LoopsExt.

Context {R : Runtime}.

Lemma sliceLoop_ext (set1 set2 : any → outcome value) (rawSlice : list any) :
  (∀ r, r ∈ rawSlice → set1 r = set2 r) →
  sliceLoop set1 rawSlice = sliceLoop set2 rawSlice.
Proof.
  induction rawSlice as [|r rawSlice IH]; intros Hset; [done|]. cbn.
  rewrite (Hset r (list_elem_of_here _ _)), IH; [done|].
  intros r' Hr'. apply Hset. by right.
Qed.

Lemma mapLoop_ext (set1 set2 : any → outcome value)
    (entries : list (string * any)) (newMap : gmap string value) :
  (∀ k r, (k, r) ∈ entries → set1 r = set2 r) →
  mapLoop set1 entries newMap = mapLoop set2 entries newMap.
Proof.
  revert newMap.
  induction entries as [|[k r] entries IH]; intros newMap Hset; [done|]. cbn.
  rewrite (Hset k r (list_elem_of_here _ _)).
  destruct (set2 r) as [elem [e|]]; [done|].
  apply IH. intros k' r' Hr'. apply (Hset k'). by right.
Qed.

Lemma populateLoop_ext (set1 set2 : GoType → value → any → outcome value)
    fields vals (rawMap : list (string * any)) :
  Forall (λ f, ∀ v r, (fieldKey f, r) ∈ rawMap →
                 set1 (Type_ f) v r = set2 (Type_ f) v r) fields →
  populateLoop set1 fields vals rawMap = populateLoop set2 fields vals rawMap.
Proof.
  intros Hall. revert vals.
  induction Hall as [|f fields Hf Hall IH]; intros [|v vals]; try done.
  rewrite !populateLoop_cons. unfold fieldTurn. rewrite IH.
  destruct (lookupRaw rawMap (fieldKey f)) as [r|] eqn:Hkey; [|done].
  by rewrite (Hf v r (lookupRaw_elem_of _ _ _ Hkey)).
Qed.

Lemma literal_text (rawValue : any) :
  literal rawValue = true →
  strings.HasPrefix (Sprintf_v rawValue) "${" = false.
Proof.
  destruct rawValue; cbn [literal]; intros [Hv _]%andb_true_iff;
    by apply negb_true_iff in Hv.
Qed.

Lemma literal_seq (l : list any) r :
  literal (RSeq l) = true → r ∈ l → literal r = true.
Proof.
  cbn [literal]. intros [_ Hl]%andb_true_iff Hr.
  rewrite forallb_forall in Hl. by apply Hl, list_elem_of_In.
Qed.

Lemma literal_map (m : list (string * any)) k r :
  literal (RMap m) = true → (k, r) ∈ m → literal r = true.
Proof.
  cbn [literal]. intros [_ Hm]%andb_true_iff Hr.
  rewrite forallb_forall in Hm. by apply (Hm (k, r)), list_elem_of_In.
Qed.

End LoopsExt.

Section Environment.

Context (R : Runtime) {O : MapOrder}.

Variable lookup : string → list any → string.

Hypothesis visits : RangeVisitsAll O.

Lemma getEnv_literal (rawValue : any) :
  literal rawValue = true →
  getEnv (R := withGetenv R lookup) rawValue = getEnv (R := R) rawValue.
Proof.
  intros Hraw%literal_text.
  rewrite (getEnv_not_placeholder (R := withGetenv R lookup) rawValue Hraw).
  by rewrite (getEnv_not_placeholder rawValue Hraw).
Qed.

(** On a value without placeholders, [setFieldValue] and its switch do
    not depend on the lookup in [Getenv]. *)
Lemma setKind_literal (ty : GoType) (field : value) (rawValue : any) :
  literal rawValue = true →
  setKind (R := withGetenv R lookup) ty field rawValue
    = setKind (R := R) ty field rawValue
  ∧ setFieldValue (R := withGetenv R lookup) ty field rawValue
    = setFieldValue (R := R) ty field rawValue.
Proof.
  revert field rawValue.
  induction ty as [k| | |k| | | |elem IH|elem IH| |fields IH| |elem IH|kind zeroText]
    using GoType_fields_ind; intros field rawValue Hraw;
    pose proof (getEnv_literal rawValue Hraw) as Henv.
  - assert (setKind (R := withGetenv R lookup) (TInt k) field rawValue
            = setKind (TInt k) field rawValue); [|done].
    cbn. unfold getEnvValueInt. by rewrite Henv.
  - assert (setKind (R := withGetenv R lookup) TInt64 field rawValue
            = setKind TInt64 field rawValue); [|done].
    cbn. unfold getEnvValueInt64. by rewrite Henv.
  - assert (setKind (R := withGetenv R lookup) TDuration field rawValue
            = setKind TDuration field rawValue); [|done].
    cbn. unfold getEnvValueDuration. by rewrite Henv.
  - assert (setKind (R := withGetenv R lookup) (TFloat k) field rawValue
            = setKind (TFloat k) field rawValue); [|done].
    cbn. unfold getEnvValueFloat. by rewrite Henv.
  - assert (setKind (R := withGetenv R lookup) TString field rawValue
            = setKind TString field rawValue); [|done].
    cbn. by rewrite Henv.
  - assert (setKind (R := withGetenv R lookup) TBool field rawValue
            = setKind TBool field rawValue); [|done].
    cbn. unfold getEnvValueBool. by rewrite Henv.
  - done.
  - assert (setKind (R := withGetenv R lookup) (TSlice elem) field rawValue
            = setKind (TSlice elem) field rawValue); [|done].
    destruct rawValue as [| | | | | |l|]; try done. cbn.
    change (@sliceLoop (withGetenv R lookup)) with (@sliceLoop R).
    rewrite (sliceLoop_ext (R := R)
               (@throughPtr (withGetenv R lookup)
                  (@setKind (withGetenv R lookup) O) elem
                  (@zero (withGetenv R lookup) elem))
               (throughPtr setKind elem (zero elem))); [done|].
    intros r Hr. apply (IH (zero elem) r). by eapply literal_seq.
  - assert (setKind (R := withGetenv R lookup) (TMap elem) field rawValue
            = setKind (TMap elem) field rawValue); [|done].
    destruct rawValue as [| | | | | | |m]; try done. cbn.
    change (@mapLoop (withGetenv R lookup)) with (@mapLoop R).
    rewrite (mapLoop_ext (R := R)
               (@throughPtr (withGetenv R lookup)
                  (@setKind (withGetenv R lookup) O) elem
                  (@zero (withGetenv R lookup) elem))
               (throughPtr setKind elem (zero elem))); [done|].
    intros k r Hr. apply (IH (zero elem) r).
    eapply (literal_map m k); [done|].
    by rewrite <- (visits _ _ m).
  - assert (setKind (R := withGetenv R lookup) TTime field rawValue
            = setKind TTime field rawValue); [|done].
    cbn. unfold getEnvValueTime. by rewrite Henv.
  - assert (setKind (R := withGetenv R lookup) (TStruct fields) field rawValue
            = setKind (TStruct fields) field rawValue); [|done].
    destruct rawValue as [| | | | | | |m]; try done.
    destruct field as [| | | | | | | |vals| | |]; try done. cbn.
    change (@populateLoop (withGetenv R lookup)) with (@populateLoop R).
    rewrite (populateLoop_ext (R := R)
               (@throughPtr (withGetenv R lookup)
                  (@setKind (withGetenv R lookup) O))
               (throughPtr setKind)); [done|].
    eapply Forall_impl; [exact IH|]. intros f Hf v r Hr.
    apply Hf. by eapply literal_map.
  - done.
  - split; [done|]. cbn.
    change (@zero (withGetenv R lookup)) with (@zero R).
    by rewrite (proj1 (IH (zero elem) rawValue Hraw)).
  - done.
Qed.

(** X16.  On a document without placeholders (no text in it starts with
    ["${"]) the outcome of [populateFields] is the same whatever lookup is
    assigned to [Getenv]: the environment is read for placeholders
    alone. *)
Theorem populateFields_literal fields (vals : list value)
    (rawMap : list (string * any)) :
  literal (RMap rawMap) = true →
  populateFields (R := withGetenv R lookup) fields vals rawMap
    = populateFields (R := R) fields vals rawMap.
Proof.
  intros Hdoc. unfold populateFields.
  change (@populateLoop (withGetenv R lookup)) with (@populateLoop R).
  apply (populateLoop_ext (R := R)), Forall_forall. intros f _ v r Hr.
  apply (proj2 (setKind_literal (Type_ f) v r (literal_map _ _ _ Hdoc Hr))).
Qed.

End Environment.

Lemma populateFields_literal_witness :
  let R := Demo.runtime [] in
  let O := Demo.listed in
  let rawMap := [("name", RString "jenv"); ("hosts", RSeq [RString "a"; RInt 2]);
                 ("region", RString "$HOME")] in
  let vals := [VStr ""; VSlice None; VStr ""] in
  RangeVisitsAll O ∧ literal (RMap rawMap) = true
  ∧ populateFields (R := withGetenv R (λ v _, "from " +:+ v))
      threeFields vals rawMap
    = ([VStr "jenv"; VSlice (Some [VStr "a"; VStr "2"]); VStr "$HOME"], None).
Proof.
  intros R O rawMap vals.
  assert (Hvisits : RangeVisitsAll O) by (by intros F T m).
  assert (Hdoc : literal (RMap rawMap) = true) by reflexivity.
  split_and!; [done..|].
  by rewrite (populateFields_literal R (λ v _, "from " +:+ v) Hvisits
                threeFields vals rawMap Hdoc).
Defined.

(** ** Tags, and pointers to structs *)

Section TagsAndPointers.

Context {R : Runtime} {O : MapOrder}.

(** X17.  The [yaml] tag counts only when the [json] tag gives no key, for
    a YAML document as for a JSON one: a field whose [json] tag gives a key
    is looked up under that key alone, and keeps its value when the
    document has no entry under it, whatever it has under the key of the
    [yaml] tag. *)
Theorem populateFields_json_key_first fields vals (rawMap : list (string * any))
    (i : nat) field :
  fields !! i = Some field →
  strings.SplitHead (Tag_Get (Tag field) "json") ","%char ≠ "" →
  fieldKey field = strings.SplitHead (Tag_Get (Tag field) "json") ","%char
  ∧ (lookupRaw rawMap (strings.SplitHead (Tag_Get (Tag field) "json") ","%char)
       = None →
     (populateFields fields vals rawMap).1 !! i = vals !! i).
Proof.
  intros Hi Hjson.
  assert (Hkey : fieldKey field
                 = strings.SplitHead (Tag_Get (Tag field) "json") ","%char).
  { unfold fieldKey.
    by destruct (String.eqb_spec
                   (strings.SplitHead (Tag_Get (Tag field) "json") ","%char) ""). }
  split; [exact Hkey|]. intros Habsent.
  apply populateLoop_absent with field; [done|]. by rewrite Hkey.
Qed.

(** X18.  A field that is a pointer to a struct is not filled into the
    struct it points to: [setFieldValue] makes it point to a new struct,
    in which a field whose key is not in the raw map has its zero value,
    whatever the struct pointed to before held. *)
Theorem setFieldValue_pointer_to_struct fields (field : value)
    (rawMap : list (string * any)) (j : nat) inner :
  fields !! j = Some inner →
  lookupRaw rawMap (fieldKey inner) = None →
  ∃ vals,
    (setFieldValue (TPtr (TStruct fields)) field (RMap rawMap)).1
      = VPtr (Some (VStruct vals))
    ∧ vals = (populateFields fields ((λ f, zero (Type_ f)) <$> fields) rawMap).1
    ∧ vals !! j = Some (zero (Type_ inner)).
Proof.
  intros Hj Hkey.
  exists (populateFields fields ((λ f, zero (Type_ f)) <$> fields) rawMap).1.
  split_and!; [|done|].
  - change (setFieldValue (TPtr (TStruct fields)) field (RMap rawMap))
      with (let '(v, err) :=
              setFieldValue (TStruct fields)
                (VStruct ((λ f, zero (Type_ f)) <$> fields)) (RMap rawMap) in
            (VPtr (Some v), err)).
    by rewrite setFieldValue_struct.
  - unfold populateFields.
    rewrite (populateLoop_absent _ _ _ _ j inner Hj Hkey).
    by rewrite list_lookup_fmap, Hj.
Qed.

End TagsAndPointers.

Lemma populateFields_json_key_first_witness :
  let R := Demo.runtime [] in
  let O := Demo.listed in
  let field := mkField "Region" [("json", "region"); ("yaml", "zone")] TString in
  let rawMap := [("zone", RString "eu-west")] in
  [field] !! 0%nat = Some field
  ∧ strings.SplitHead (Tag_Get (Tag field) "json") ","%char ≠ ""
  ∧ (populateFields [field] [VStr "kept"] rawMap).1 !! 0%nat
    = Some (VStr "kept").
Proof.
  intros R O field rawMap.
  assert (Hjson : strings.SplitHead (Tag_Get (Tag field) "json") ","%char ≠ "")
    by done.
  split_and!; [done..|].
  by rewrite (proj2 (populateFields_json_key_first [field] [VStr "kept"] rawMap
                       0%nat field eq_refl Hjson) eq_refl).
Defined.

Lemma setFieldValue_pointer_to_struct_witness :
  let R := Demo.runtime [] in
  let O := Demo.listed in
  let fields := [mkField "Name" [("json", "name")] TString;
                 mkField "Port" [("json", "port")] (TInt KInt)] in
  let old := VPtr (Some (VStruct [VStr "old"; VInt 5432])) in
  let rawMap := [("name", RString "new")] in
  fields !! 1%nat = Some (mkField "Port" [("json", "port")] (TInt KInt))
  ∧ lookupRaw rawMap "port" = None
  ∧ (setFieldValue (TPtr (TStruct fields)) old (RMap rawMap)).1
    = VPtr (Some (VStruct [VStr "new"; VInt 0]))
  ∧ ∃ vals,
      (setFieldValue (TPtr (TStruct fields)) old (RMap rawMap)).1
        = VPtr (Some (VStruct vals))
      ∧ vals !! 1%nat = Some (VInt 0).
Proof.
  intros R O fields old rawMap. split_and!; [done..|].
  destruct (setFieldValue_pointer_to_struct fields old rawMap 1%nat
              (mkField "Port" [("json", "port")] (TInt KInt)) eq_refl eq_refl)
    as (vals & Hrun & _ & Hport).
  by exists vals.
Defined.
